(** * wwislop8: Future Composer modules to PICO-8 [__sfx__]/[__music__] data

    A shallow embedding of [src/wwislop8/wwislop8.py] and the properties of
    its decoder, its pattern/sequence translator and its formatter.

    Python values are modelled as follows: [bytes] objects are [list byte],
    [int]s are [Z] (Python integers are unbounded), [str]s are [string],
    a list slot holding [None] or a value is an [option].  Standard output
    is the list of printed lines; an uncaught exception ends the run. *)

From Stdlib Require Import ZArith NArith Lia Ascii.
From Stdlib.Init Require Import Byte.
From Stdlib.Strings Require Byte.
From stdpp Require Import base decidable option list strings.
Import Byte.ByteNotations.

Local Open Scope Z_scope.

(** ** Exceptions, printed lines and the sequencing of statements *)

Module Py.

(** The exceptions the program can end with. *)
Inductive exn : Type :=
| NameError (name : string)     (* an unbound name was evaluated *)
| IndexError                    (* [seq[i]] with [i] out of range *)
| ValueError (x : Z)            (* [list.index(x)] with [x] absent *)
| StructError                   (* [struct.unpack] on a short buffer *)
| AttributeError (name : string) (* a missing attribute was read *)
| SystemExit (msg : string).    (* [sys.exit(msg)] *)

Inductive result (A : Type) : Type :=
| Ok (a : A)
| Raise (e : exn).
Arguments Ok {A} a.
Arguments Raise {A} e.

(** A statement yields the lines it printed and either a value or the
    exception that stopped it.  Lines printed before a raise stay printed. *)
Definition M (A : Type) : Type := (list string * result A)%type.

Definition ret {A} (a : A) : M A := ([], Ok a).

Definition raise {A} (e : exn) : M A := ([], Raise e).

Definition print (line : string) : M unit := ([line], Ok tt).

Definition bind {A B} (m : M A) (k : A -> M B) : M B :=
  match m with
  | (out, Ok a) => let '(out', r) := k a in (out ++ out', r)
  | (out, Raise e) => (out, Raise e)
  end.

(** [for x in l: s = body(s, x)] *)
Fixpoint for_each {A S} (body : S -> A -> M S) (l : list A) (s : S) : M S :=
  match l with
  | [] => ret s
  | x :: l' => bind (body s x) (for_each body l')
  end.

End Py.

Import Py.

Notation "x <- m ;; k" := (bind m (fun x => k))
  (at level 100, m at next level, right associativity).
Notation "m ;;; k" := (bind m (fun _ => k))
  (at level 100, right associativity).

(** [acc = []; for x in l: acc.append(f(x))], used to describe such loops. *)
Fixpoint mapM {A B} (f : A -> M B) (l : list A) : M (list B) :=
  match l with
  | [] => ret []
  | x :: l' => y <- f x ;; ys <- mapM f l' ;; ret (y :: ys)
  end.

(** ** Python primitives used by the program *)

#[global] Instance byte_eq_decision : EqDecision byte := Byte.byte_eq_dec.

(** The integer a byte stands for, in 0..255. *)
Definition byte_val (b : byte) : Z := Z.of_N (Byte.to_N b).

(** [data[i]] on a [bytes] object, for a non-negative [i]. *)
Definition getitem (data : list byte) (i : nat) : M Z :=
  match data !! i with
  | Some b => ret (byte_val b)
  | None => raise IndexError
  end.

(** [data[lo:hi]] for non-negative bounds: never raises, truncates. *)
Definition slice (data : list byte) (lo hi : nat) : list byte :=
  take (hi - lo)%nat (drop lo data).

(** [int.from_bytes(data, byteorder='big')] *)
Definition from_bytes_big (data : list byte) : Z :=
  fold_left (fun acc b => acc * 256 + byte_val b) data 0.

(** [struct.unpack('4s', data)[0]] *)
Definition struct_unpack_4s (data : list byte) : M (list byte) :=
  if (length data =? 4)%nat then ret data else raise StructError.

(** [l.index(x)] *)
Fixpoint list_index (x : Z) (l : list Z) : option nat :=
  match l with
  | [] => None
  | y :: l' => if decide (y = x) then Some O else S <$> list_index x l'
  end.

(** *** [%] formatting *)

Definition digit_char (d : N) : ascii :=
  match d with
  | 0 => "0" | 1 => "1" | 2 => "2" | 3 => "3" | 4 => "4" | 5 => "5"
  | 6 => "6" | 7 => "7" | 8 => "8" | 9 => "9" | 10 => "a" | 11 => "b"
  | 12 => "c" | 13 => "d" | 14 => "e" | _ => "f"
  end%N%char.

(** Digits of [n] in [base], most significant first, in front of [acc]. *)
Fixpoint digits (base : N) (fuel : nat) (n : N) (acc : string) : string :=
  match fuel with
  | O => acc
  | S fuel' =>
      let acc' := String (digit_char (n mod base)) acc in
      if (n / base =? 0)%N then acc' else digits base fuel' (n / base) acc'
  end.

Definition N_to_string (base : N) (n : N) : string :=
  digits base (S (N.to_nat (N.size n))) n "".

(** ["%d" % v] *)
Definition fmt_d (v : Z) : string :=
  if v <? 0 then "-" +:+ N_to_string 10 (Z.to_N (- v))
  else N_to_string 10 (Z.to_N v).

(** ["%02x" % v]: lower-case hexadecimal, zero-padded to a minimum width
    of two; a negative value has its sign in front, which already fills
    the width. *)
Definition fmt_02x (v : Z) : string :=
  if v <? 0 then "-" +:+ N_to_string 16 (Z.to_N (- v))
  else
    let s := N_to_string 16 (Z.to_N v) in
    if (String.length s <? 2)%nat then "0" +:+ s else s.

(** *** How a run ends *)

(** What the interpreter writes last on standard error when the run ends
    with an exception: the argument of [sys.exit], or the final line of
    the traceback. *)
Definition stderr_line (e : exn) : string :=
  match e with
  | NameError x => "NameError: name '" +:+ x +:+ "' is not defined"
  | IndexError => "IndexError: index out of range"
  | ValueError x => "ValueError: " +:+ fmt_d x +:+ " is not in list"
  | StructError => "struct.error: unpack requires a buffer of 4 bytes"
  | AttributeError x =>
      "AttributeError: 'FutureComposerModule' object has no attribute '"
      +:+ x +:+ "'"
  | SystemExit msg => msg
  end.

(** The exit status of the process: 0 at the normal end, 1 after an
    uncaught exception or [sys.exit] with a string. *)
Definition exit_status {A} (r : result A) : Z :=
  match r with
  | Ok _ => 0
  | Raise _ => 1
  end.

(** ** The PICO-8 side: patterns, sequences, song *)

Module PICO8Pattern.

Record Row : Type := mkRow {
  note : option Z;
  instrument : Z;
  volume : Z;
  effect : Z
}.

Definition Row_format (self : Row) : string :=
  match note self with
  | Some n =>
      fmt_02x n +:+ fmt_d (instrument self) +:+ fmt_d (volume self)
        +:+ fmt_d (effect self)
  | None => "00000"
  end.

Record t : Type := mk {
  rows : list (option Row);
  speed : Z
}.

Definition init (speed : Z) : t :=
  {| rows := replicate 32 None; speed := speed |}.

(** [self.rows[row] = Row(...)]: an index past the end raises. *)
Definition set (self : t) (row : nat) (note : option Z)
    (instrument volume effect : Z) : M t :=
  if (row <? length (rows self))%nat then
    ret {| rows := <[row := Some (mkRow note instrument volume effect)]> (rows self);
           speed := speed self |}
  else raise IndexError.

Definition row_code (row : option Row) : string :=
  match row with
  | Some r => Row_format r
  | None => "00000"
  end.

Definition format (self : t) : string :=
  fold_left (fun acc row => acc +:+ row_code row) (rows self)
    ("01" +:+ fmt_02x (speed self) +:+ "0000").

End PICO8Pattern.

Module PICO8Sequence.

Record t : Type := mk { channels : list (option Z) }.

Definition init : t := {| channels := replicate 4 None |}.

Definition set (self : t) (channel : nat) (pattern_to_play : Z) : M t :=
  if (channel <? length (channels self))%nat then
    ret {| channels := <[channel := Some pattern_to_play]> (channels self) |}
  else raise IndexError.

(** The code of channel [i]; reading [self.channels[i]] raises when the
    slot does not exist. *)
Definition channel_code (self : t) (i : nat) : M string :=
  match channels self !! i with
  | Some (Some p) => ret (fmt_02x p)
  | Some None => ret (fmt_02x (64 + Z.of_nat i + 1))
  | None => raise IndexError
  end.

Definition format (self : t) : M string :=
  for_each (fun result i => code <- channel_code self i ;; ret (result +:+ code))
    (seq 0 4) "00 ".

End PICO8Sequence.

Module PICO8Song.

Record t : Type := mk {
  sequences : list PICO8Sequence.t;
  patterns : list PICO8Pattern.t
}.

Definition output (self : t) : M unit :=
  print "__sfx__" ;;;
  for_each (fun _ p => print (PICO8Pattern.format p)) (patterns self) tt ;;;
  print "__music__" ;;;
  for_each (fun _ s => line <- PICO8Sequence.format s ;; print line)
    (sequences self) tt.

End PICO8Song.

(** ** The command line *)

Module Args.

(** The parsed arguments ([end] is a keyword, hence [end_]). *)
Record t : Type := mk {
  start : Z;
  end_ : Z;
  speed : Z;
  transpose : Z
}.

(** The defaults of the argument parser. *)
Definition default : t :=
  {| start := 0; end_ := -1; speed := 10; transpose := 0 |}.

End Args.

(** ** The Future Composer side *)

Module FutureComposerModule.

Definition SMOD : list byte := ["S"; "M"; "O"; "D"]%byte.
Definition FC14 : list byte := ["F"; "C"; "1"; "4"]%byte.

Module Sample.

Record t : Type := mk {
  length : Z;
  loop_start : Z;
  loop_length : Z
}.

Definition init (data : list byte) : t :=
  {| length := from_bytes_big (slice data 0 2);
     loop_start := from_bytes_big (slice data 2 4);
     loop_length := from_bytes_big (slice data 4 6) |}.

End Sample.

Module Voice.

Record t : Type := mk {
  num : nat;
  pattern : Z;
  transpose : Z;
  sound_transpose : Z
}.

Definition init (num : nat) (data : list byte) : M t :=
  p <- getitem data 0 ;;
  tr <- getitem data 1 ;;
  st <- getitem data 2 ;;
  ret {| num := num; pattern := p; transpose := tr; sound_transpose := st |}.

Definition hash (self : t) : Z :=
  pattern self + transpose self * 256 + sound_transpose self * 65536.

End Voice.

Module Sequence.

Record t : Type := mk {
  voices : list Voice.t;
  speed : Z
}.

Definition init (data : list byte) : M t :=
  v0 <- Voice.init 0 data ;;
  v1 <- Voice.init 1 (drop 3 data) ;;
  v2 <- Voice.init 2 (drop 6 data) ;;
  v3 <- Voice.init 3 (drop 9 data) ;;
  sp <- getitem data 12 ;;
  ret {| voices := [v0; v1; v2; v3]; speed := sp |}.

End Sequence.

Record t : Type := mk {
  args : Args.t;
  contents : list byte;
  magic : list byte;
  sequence_data_size : Z;
  pattern_offset : Z;
  pattern_data_size : Z;
  freqmod_offset : Z;
  freqmod_data_size : Z;
  volume_offset : Z;
  volume_data_size : Z;
  sample_offset : Z;
  wavetable_offset : option Z;      (* set for FC14 only *)
  sample_data_size : option Z;      (* set for SMOD only *)
  sequence_offset : Z;
  samples : list Sample.t;
  sequences : list Sequence.t;
  used_patterns : list Z
}.

(** The 32-bit big-endian header field at byte [lo]. *)
Definition field (contents : list byte) (lo : nat) : Z :=
  from_bytes_big (slice contents lo (lo + 4)).

(** Lines 104-106.  The argument of [sys.exit] mentions the name [magic],
    which is bound neither in [__init__] (the tag is [self.magic]) nor at
    module level nor as a builtin: evaluating the argument raises
    [NameError] before [sys.exit] is called. *)
Definition check_magic (magic : list byte) : M unit :=
  if bool_decide (magic ≠ SMOD) && bool_decide (magic ≠ FC14) then
    msg <- raise (NameError "magic") ;;
    raise (SystemExit ("Unknown format: " +:+ msg))
  else ret tt.

(** Lines 116-121: the fields that depend on the variant, as
    (wavetable_offset, sample_data_size, sequence_offset).  After
    [check_magic] one of the two tags matches; with neither, the
    attribute [sequence_offset] would be missing when it is read. *)
Definition variant_fields (magic contents : list byte)
    : M (option Z * option Z * Z) :=
  if bool_decide (magic = FC14) then
    ret (Some (field contents 36), None, 180)
  else if bool_decide (magic = SMOD) then
    ret (None, Some (field contents 36), 100)
  else raise (AttributeError "sequence_offset").

(** The test of line 130. *)
Definition in_window (args : Args.t) (i : nat) : bool :=
  (Z.of_nat i >=? Args.start args)
  && ((Z.of_nat i <=? Args.end_ args) || (Args.end_ args =? -1)).

(** The body of the loop of lines 129-131. *)
Definition read_sequence (args : Args.t) (contents : list byte)
    (sequence_offset : Z) (sequences : list Sequence.t) (i : nat)
    : M (list Sequence.t) :=
  if in_window args i then
    s <- Sequence.init (drop (Z.to_nat sequence_offset + i * 13)%nat contents) ;;
    ret (sequences ++ [s])
  else ret sequences.

(** Lines 136-138. *)
Definition add_used (used_patterns : list Z) (voice : Voice.t) : list Z :=
  let hash := Voice.hash voice in
  if bool_decide (hash ∈ used_patterns) then used_patterns
  else used_patterns ++ [hash].

(** Lines 133-138. *)
Definition collect_used (sequences : list Sequence.t) : list Z :=
  fold_left (fun used sequence => fold_left add_used (Sequence.voices sequence) used)
    sequences [].

Definition overflow_warning : string :=
  "Warning: the number of unique patterns exceeds 64".

(** [__init__], from the bytes read from the input file. *)
Definition init (args : Args.t) (contents : list byte) : M t :=
  magic <- struct_unpack_4s (slice contents 0 4) ;;
  check_magic magic ;;;
  vf <- variant_fields magic contents ;;
  let '(wavetable_offset, sample_data_size, sequence_offset) := vf in
  let sequence_data_size := field contents 4 in
  let samples :=
    map (fun i => Sample.init (drop (40 + i * 6)%nat contents)) (seq 0 10) in
  let num_sequences := sequence_data_size / 13 in
  sequences <-
    for_each (read_sequence args contents sequence_offset)
      (seq 0 (Z.to_nat num_sequences)) [] ;;
  let used_patterns := collect_used sequences in
  (if (64 <? length used_patterns)%nat then print overflow_warning
   else ret tt) ;;;
  ret {| args := args;
         contents := contents;
         magic := magic;
         sequence_data_size := sequence_data_size;
         pattern_offset := field contents 8;
         pattern_data_size := field contents 12;
         freqmod_offset := field contents 16;
         freqmod_data_size := field contents 20;
         volume_offset := field contents 24;
         volume_data_size := field contents 28;
         sample_offset := field contents 32;
         wavetable_offset := wavetable_offset;
         sample_data_size := sample_data_size;
         sequence_offset := sequence_offset;
         samples := samples;
         sequences := sequences;
         used_patterns := used_patterns |}.

Definition warn_above (pat_num : Z) : string :=
  "Warning: found note above D#5 in pattern " +:+ fmt_d pat_num +:+ "; clamping".

Definition warn_below (pat_num : Z) : string :=
  "Warning: found note below C0 in pattern " +:+ fmt_d pat_num +:+ "; clamping".

(** Lines 153-165: one row of a source pattern. *)
Definition convert_row (self : t) (pat_num pat_transpose : Z)
    (pattern : list byte) (pico8_pattern : PICO8Pattern.t) (row : nat)
    : M PICO8Pattern.t :=
  note <- getitem pattern (row * 2) ;;
  if note >? 0 then
    info <- getitem pattern (row * 2 + 1) ;;
    let note := note + 24 in
    let note := note + (pat_transpose + Args.transpose (args self)) in
    note <- (if note >? 63 then print (warn_above pat_num) ;;; ret 63
             else ret note) ;;
    note <- (if note <? 0 then print (warn_below pat_num) ;;; ret 0
             else ret note) ;;
    let instrument := Z.land info 7 in
    PICO8Pattern.set pico8_pattern row (Some note) instrument 4 0
  else ret pico8_pattern.

(** Lines 145-165: the pattern of one entry of [used_patterns]. *)
Definition convert_pattern (self : t) (used_pattern : Z) : M PICO8Pattern.t :=
  let pico8_pattern := PICO8Pattern.init (Args.speed (args self)) in
  let pat_num := Z.land used_pattern 255 in
  let pat_transpose := Z.land (Z.shiftr used_pattern 8) 255 in
  let offset := pattern_offset self + pat_num * 64 in
  let pattern :=
    slice (contents self) (Z.to_nat offset) (Z.to_nat (offset + 64)) in
  let pat_transpose :=
    if pat_transpose >=? 128 then pat_transpose - 256 else pat_transpose in
  for_each (convert_row self pat_num pat_transpose pattern) (seq 0 32)
    pico8_pattern.

Definition convert_patterns (self : t) : M (list PICO8Pattern.t) :=
  for_each
    (fun pico8_patterns used_pattern =>
       p <- convert_pattern self used_pattern ;;
       ret (pico8_patterns ++ [p]))
    (used_patterns self) [].

(** Lines 174-177: one voice of a sequence. *)
Definition convert_voice (self : t) (pico8_sequence : PICO8Sequence.t)
    (voice : Voice.t) : M PICO8Sequence.t :=
  let hash := Voice.hash voice in
  let pat_num := Z.land hash 255 in
  if pat_num >? 0 then
    match list_index hash (used_patterns self) with
    | Some i => PICO8Sequence.set pico8_sequence (Voice.num voice) (Z.of_nat i)
    | None => raise (ValueError hash)
    end
  else ret pico8_sequence.

Definition convert_sequence (self : t) (sequence : Sequence.t)
    : M PICO8Sequence.t :=
  for_each (convert_voice self) (Sequence.voices sequence) PICO8Sequence.init.

Definition convert_sequences (self : t) : M (list PICO8Sequence.t) :=
  for_each
    (fun pico8_sequences sequence =>
       s <- convert_sequence self sequence ;;
       ret (pico8_sequences ++ [s]))
    (sequences self) [].

End FutureComposerModule.

(** ** The script *)

Definition gfx_line : string :=
  "00000000000000000000000000000000000000000000000000000000000000000000000000000000000000000000000000000000000000000000000000000000".

Definition header : list string :=
  ["pico-8 cartridge // http://www.pico-8.com"; "version 42"; "__gfx__"]
  ++ replicate 6 gfx_line.

(** Lines 190-199, from the parsed arguments and the bytes of the input
    file: what is printed, and how the run ends. *)
Definition main (args : Args.t) (file : list byte) : M unit :=
  module <- FutureComposerModule.init args file ;;
  sequences <- FutureComposerModule.convert_sequences module ;;
  patterns <- FutureComposerModule.convert_patterns module ;;
  let pico8_song := PICO8Song.mk sequences patterns in
  for_each (fun _ line => print line) header tt ;;;
  PICO8Song.output pico8_song.

(** ** Sample files, for the examples *)

Module Samples.

Definition byte_of (n : Z) : byte :=
  default "000"%byte (Byte.of_N (Z.to_N n)).

Definition be32 (n : Z) : list byte :=
  map byte_of
    [n / 16777216 mod 256; n / 65536 mod 256; n / 256 mod 256; n mod 256].

(** An SMOD file: the tag, the sizes and offsets of the two tables, zeros
    up to byte 100, the sequence records, then the pattern blocks. *)
Definition smod_file (records : list (list Z)) (blocks : list Z) : list byte :=
  FutureComposerModule.SMOD
  ++ be32 (13 * Z.of_nat (length records))
  ++ be32 (100 + 13 * Z.of_nat (length records))
  ++ be32 (Z.of_nat (length blocks))
  ++ replicate 84 (byte_of 0)
  ++ map byte_of (concat records)
  ++ map byte_of blocks.

(** A block whose first rows hold the given (note, info) bytes. *)
Definition block (first_bytes : list Z) : list Z :=
  first_bytes ++ replicate (64 - length first_bytes) 0.

(** Two sequences over two patterns; the second sequence has speed 3. *)
Definition song : list byte :=
  smod_file
    [[1; 0; 0;  1; 0; 0;  0; 0; 0;  1; 244; 0;  7];
     [1; 0; 0;  0; 0; 0;  1; 0; 0;  1; 0; 0;  3]]
    (block [36; 1] ++ block [1; 9; 0; 0; 60; 3]).

(** [song] with other speed bytes in its two sequence records. *)
Definition song_other_speeds : list byte :=
  smod_file
    [[1; 0; 0;  1; 0; 0;  0; 0; 0;  1; 244; 0;  200];
     [1; 0; 0;  0; 0; 0;  1; 0; 0;  1; 0; 0;  0]]
    (block [36; 1] ++ block [1; 9; 0; 0; 60; 3]).

(** One sequence: channels 0 and 1 play pattern 0, channels 2 and 3
    play pattern 1. *)
Definition silent_pair : list byte :=
  smod_file [[0; 0; 0;  0; 0; 0;  1; 0; 0;  1; 0; 0;  6]]
    (block [36; 1] ++ block [1; 9; 0; 0; 60; 3]).

(** One sequence playing pattern 1 on all channels; its first row has
    note byte 36. *)
Definition one_pattern : list byte :=
  smod_file [[1; 0; 0;  1; 0; 0;  1; 0; 0;  1; 0; 0;  6]]
    (block [] ++ block [36; 2]).

(** A file with an unknown tag. *)
Definition unknown_tag : list byte :=
  map byte_of [88; 88; 88; 88] ++ replicate 96 (byte_of 0).

(** The three bytes of the voice with key number [k]: pattern
    [1 + k mod 250], note transpose [k / 250]. *)
Definition voice_of_key (k : nat) : list Z :=
  [1 + Z.of_nat k mod 250; Z.of_nat k / 250; 0].

(** [nrecords] sequences whose voices run through [nkeys] distinct keys,
    the last key being repeated to the end, over the given blocks. *)
Definition many_keys_over (nkeys nrecords : nat) (blocks : list Z)
    : list byte :=
  smod_file
    (map (fun j =>
            flat_map (fun c => voice_of_key (Nat.min (4 * j + c) (nkeys - 1)))
              (seq 0 4) ++ [6])
       (seq 0 nrecords))
    blocks.

(** Over 251 empty patterns. *)
Definition many_keys (nkeys nrecords : nat) : list byte :=
  many_keys_over nkeys nrecords (replicate (251 * 64) 0).

(** 65 distinct keys, and a note byte 60 in the first row of pattern 1. *)
Definition many_keys_loud : list byte :=
  many_keys_over 65 17 (block [] ++ block [60; 0] ++ replicate (249 * 64) 0).

End Samples.

(** * Properties *)

(** ** Sequencing *)

Section Sequencing.

Context {A B : Type}.

Lemma bind_ret_l (a : A) (k : A -> M B) : bind (ret a) k = k a.
Proof. unfold bind, ret. destruct (k a) as [o r]. reflexivity. Qed.

Lemma bind_Ok (m : M A) (k : A -> M B) o a :
  m = (o, Ok a) -> bind m k = (o ++ (k a).1, (k a).2).
Proof. intros ->. unfold bind. destruct (k a); reflexivity. Qed.

Lemma bind_Raise (m : M A) (k : A -> M B) o e :
  m = (o, Raise e) -> bind m k = (o, Raise e).
Proof. intros ->. reflexivity. Qed.

(** A sequence that ends normally: both parts did. *)
Lemma bind_Ok_inv (m : M A) (k : A -> M B) out b :
  bind m k = (out, Ok b) ->
  exists o1 a o2, m = (o1, Ok a) /\ k a = (o2, Ok b) /\ out = o1 ++ o2.
Proof.
  unfold bind. destruct m as [o1 [a|e]]; [|discriminate].
  destruct (k a) as [o2 r] eqn:Hk. intros [= <- ->]. eauto 6.
Qed.

End Sequencing.

(** Inverts a hypothesis [bind m k = (out, Ok b)]. *)
Ltac bind_inv H :=
  let o1 := fresh "o" in
  let a := fresh "a" in
  let o2 := fresh "o" in
  let H1 := fresh H in
  let H3 := fresh "Hout" in
  apply bind_Ok_inv in H as (o1 & a & o2 & H1 & H & H3).

Ltac ret_inv H :=
  unfold ret in H; injection H as ? ?; subst.

Section Loops.

Context {A S : Type}.

Lemma for_each_app (body : S -> A -> M S) l1 l2 s :
  for_each body (l1 ++ l2) s = bind (for_each body l1 s) (for_each body l2).
Proof.
  revert s. induction l1 as [|x l1 IH]; intros s; cbn [for_each app].
  - rewrite bind_ret_l. reflexivity.
  - unfold bind at 1 3. destruct (body s x) as [o [s'|e]]; [|reflexivity].
    rewrite IH. unfold bind. destruct (for_each body l1 s') as [o1 [s1|e1]].
    + destruct (for_each body l2 s1) as [o2 r2]. by rewrite app_assoc.
    + reflexivity.
Qed.

End Loops.

Section Appending.

Context {A B : Type} (f : A -> M B).

(** A loop that appends one result per element. *)
Lemma for_each_append l acc :
  for_each (fun acc x => y <- f x ;; ret (acc ++ [y])) l acc
  = (ys <- mapM f l ;; ret (acc ++ ys)).
Proof.
  revert acc. induction l as [|x l IH]; intros acc; cbn [for_each mapM].
  - unfold bind, ret. simpl. by rewrite app_nil_r.
  - unfold bind at 1 2 3 4. destruct (f x) as [o [y|e]]; [|reflexivity].
    unfold ret at 1. rewrite IH. unfold bind, ret.
    destruct (mapM f l) as [o' [ys|e']]; rewrite ?app_nil_r; [|reflexivity].
    by rewrite <- app_assoc.
Qed.

End Appending.

(** ** Strings and [%] formatting *)

Lemma string_app_cons c (s1 s2 : string) :
  String c s1 +:+ s2 = String c (s1 +:+ s2).
Proof. reflexivity. Qed.

Lemma string_app_assoc (s1 s2 s3 : string) :
  (s1 +:+ s2) +:+ s3 = s1 +:+ (s2 +:+ s3).
Proof.
  induction s1 as [|c s1 IH]; [done|]. rewrite !string_app_cons. by rewrite IH.
Qed.

Lemma string_length_app (s1 s2 : string) :
  String.length (s1 +:+ s2) = (String.length s1 + String.length s2)%nat.
Proof.
  induction s1 as [|c s1 IH]; [done|]. rewrite string_app_cons. simpl.
  by rewrite IH.
Qed.

(** The number a digit stands for, and the number a digit string stands
    for after the digits read so far gave [v]. *)
Definition digit_val (c : ascii) : N :=
  let n := N_of_ascii c in
  if (n <? 58)%N then (n - 48)%N else (n - 87)%N.

Fixpoint string_val (base : N) (s : string) (v : N) : N :=
  match s with
  | EmptyString => v
  | String c s' => string_val base s' (v * base + digit_val c)%N
  end.

Lemma digit_val_char (d : N) : (d < 16)%N -> digit_val (digit_char d) = d.
Proof.
  intros Hd.
  assert (forall k, (k < 16)%nat ->
            digit_val (digit_char (N.of_nat k)) = N.of_nat k) as H.
  { intros k Hk. do 16 (destruct k as [|k]; [reflexivity|]). lia. }
  rewrite <- (N2Nat.id d). apply H. lia.
Qed.

(** The fuel of [N_to_string] is enough: the digits read back as [n]. *)
Lemma digits_val (base : N) (fuel : nat) :
  (2 <= base <= 16)%N ->
  forall n acc, (n < 2 ^ N.of_nat fuel)%N -> (0 < fuel)%nat ->
    string_val base (digits base fuel n acc) 0 = string_val base acc n.
Proof.
  intros Hb. induction fuel as [|fuel IH]; intros n acc Hn Hf; [lia|].
  cbn [digits]. cbv zeta.
  assert (n mod base < 16)%N as Hd.
  { pose proof (N.mod_upper_bound n base). lia. }
  destruct (n / base =? 0)%N eqn:E.
  - apply N.eqb_eq in E. cbn [string_val]. rewrite digit_val_char by done.
    f_equal. rewrite (N.div_mod n base) at 2 by lia. lia.
  - apply N.eqb_neq in E.
    assert (n / base < 2 ^ N.of_nat fuel)%N as Hq.
    { apply N.Div0.div_lt_upper_bound.
      rewrite Nat2N.inj_succ, N.pow_succ_r' in Hn.
      assert (2 * 2 ^ N.of_nat fuel <= base * 2 ^ N.of_nat fuel)%N
        by (apply N.mul_le_mono_r; lia).
      lia. }
    destruct fuel as [|fuel'].
    { change (2 ^ N.of_nat 0)%N with 1%N in Hq. by apply N.lt_1_r in Hq. }
    rewrite IH by (done || lia). cbn [string_val].
    rewrite digit_val_char by done. f_equal.
    rewrite N.mul_comm. symmetry. apply N.div_mod. lia.
Qed.

Lemma N_to_string_val (base n : N) :
  (2 <= base <= 16)%N -> string_val base (N_to_string base n) 0 = n.
Proof.
  intros Hb. unfold N_to_string. rewrite digits_val; [done|done| |lia].
  rewrite Nat2N.inj_succ, N2Nat.id, N.pow_succ_r'.
  pose proof (N.size_gt n).
  assert (0 < 2 ^ N.size n)%N by (apply N.neq_0_lt_0, N.pow_nonzero; lia).
  lia.
Qed.

(** A property checked on [0 .. n-1] holds on that range. *)
Lemma Z_range_check (P : Z -> bool) (n : nat) :
  forallb (fun i => P (Z.of_nat i)) (seq 0 n) = true ->
  forall z, 0 <= z < Z.of_nat n -> P z = true.
Proof.
  intros H z Hz. rewrite forallb_forall in H.
  rewrite <- (Z2Nat.id z) by lia. apply H, in_seq. lia.
Qed.

Lemma fmt_02x_length (v : Z) :
  0 <= v <= 255 -> String.length (fmt_02x v) = 2%nat.
Proof.
  intros Hv. apply Nat.eqb_eq.
  apply (Z_range_check (fun z => String.length (fmt_02x z) =? 2)%nat 256);
    [by vm_compute | lia].
Qed.

Lemma fmt_d_length_digit (v : Z) :
  0 <= v <= 9 -> String.length (fmt_d v) = 1%nat.
Proof.
  intros Hv. apply Nat.eqb_eq.
  apply (Z_range_check (fun z => String.length (fmt_d z) =? 1)%nat 10);
    [by vm_compute | lia].
Qed.

(** ** Reading bytes *)

Lemma byte_val_range (b : byte) : 0 <= byte_val b <= 255.
Proof. unfold byte_val. pose proof (Byte.to_N_bounded b). lia. Qed.

Lemma getitem_Ok_inv data i out v :
  getitem data i = (out, Ok v) ->
  out = [] /\ exists b, data !! i = Some b /\ v = byte_val b.
Proof.
  unfold getitem. destruct (data !! i) as [b|]; [|discriminate].
  intros H. ret_inv H. eauto.
Qed.

Lemma getitem_Some data i b :
  data !! i = Some b -> getitem data i = ret (byte_val b).
Proof. unfold getitem. by intros ->. Qed.

Lemma getitem_silent data i out r : getitem data i = (out, r) -> out = [].
Proof.
  unfold getitem. destruct (data !! i); unfold ret, raise; congruence.
Qed.

Lemma from_bytes_big_nonneg data : 0 <= from_bytes_big data.
Proof.
  assert (forall l a, 0 <= a ->
    0 <= fold_left (fun acc b => acc * 256 + byte_val b) l a) as H.
  { induction l as [|b l IH]; intros a0 Ha; simpl; [done|].
    apply IH. pose proof (byte_val_range b). lia. }
  apply H. lia.
Qed.

(** ** Statements that print nothing *)

Definition silent {A} (m : M A) : Prop := m.1 = [].

Lemma silent_ret {A} (a : A) : silent (ret a).
Proof. reflexivity. Qed.

Lemma silent_raise {A} e : silent (@raise A e).
Proof. reflexivity. Qed.

Lemma silent_bind {A B} (m : M A) (k : A -> M B) :
  silent m -> (forall a, silent (k a)) -> silent (bind m k).
Proof.
  unfold silent, bind. destruct m as [o [a|e]]; simpl; intros -> Hk; [|done].
  specialize (Hk a). destruct (k a) as [o' r]. simpl in *. by subst.
Qed.

Lemma silent_for_each {A S} (body : S -> A -> M S) l s :
  (forall s x, silent (body s x)) -> silent (for_each body l s).
Proof.
  intros Hb. revert s. induction l as [|x l IH]; intros s; cbn [for_each].
  - apply silent_ret.
  - apply silent_bind; auto.
Qed.

Lemma silent_getitem data i : silent (getitem data i).
Proof. unfold silent. destruct (getitem data i) eqn:H. eapply getitem_silent, H. Qed.

Lemma silent_eq {A} (m : M A) out r : silent m -> m = (out, r) -> out = [].
Proof. unfold silent. by intros H ->. Qed.

Ltac silent_tac :=
  repeat first
    [ apply silent_ret | apply silent_raise | apply silent_getitem
    | apply silent_bind; [|intros ?]
    | apply silent_for_each; intros ? ? ].

(** ** The decoder *)

Import FutureComposerModule.

(** The three bytes of a voice are in 0..255. *)
Definition voice_bytes (v : Voice.t) : Prop :=
  0 <= Voice.pattern v <= 255 /\ 0 <= Voice.transpose v <= 255
  /\ 0 <= Voice.sound_transpose v <= 255.

Lemma silent_Voice_init n data : silent (Voice.init n data).
Proof. unfold Voice.init. silent_tac. Qed.

Lemma Voice_init_Ok_inv n data out v :
  Voice.init n data = (out, Ok v) ->
  out = [] /\ exists b0 b1 b2,
    data !! 0%nat = Some b0 /\ data !! 1%nat = Some b1 /\ data !! 2%nat = Some b2
    /\ v = Voice.mk n (byte_val b0) (byte_val b1) (byte_val b2).
Proof.
  intros H. split; [eapply silent_eq, H; apply silent_Voice_init|].
  unfold Voice.init in H. bind_inv H. bind_inv H. bind_inv H. ret_inv H.
  apply getitem_Ok_inv in H0 as (_ & b0 & ? & ->).
  apply getitem_Ok_inv in H1 as (_ & b1 & ? & ->).
  apply getitem_Ok_inv in H2 as (_ & b2 & ? & ->).
  eauto 8.
Qed.

Lemma Voice_init_Ok n data b0 b1 b2 :
  data !! 0%nat = Some b0 -> data !! 1%nat = Some b1 -> data !! 2%nat = Some b2 ->
  Voice.init n data
  = ret (Voice.mk n (byte_val b0) (byte_val b1) (byte_val b2)).
Proof.
  intros H0 H1 H2. unfold Voice.init.
  rewrite (getitem_Some _ _ _ H0), bind_ret_l.
  rewrite (getitem_Some _ _ _ H1), bind_ret_l.
  rewrite (getitem_Some _ _ _ H2), bind_ret_l. reflexivity.
Qed.

Lemma Voice_init_bytes n data out v :
  Voice.init n data = (out, Ok v) -> Voice.num v = n /\ voice_bytes v.
Proof.
  intros H. apply Voice_init_Ok_inv in H as (_ & b0 & b1 & b2 & _ & _ & _ & ->).
  split; [done|]. unfold voice_bytes; simpl.
  pose proof (byte_val_range b0). pose proof (byte_val_range b1).
  pose proof (byte_val_range b2). lia.
Qed.

(** A decoded sequence: four voices, numbered by channel, made of bytes. *)
Definition sequence_shape (s : Sequence.t) : Prop :=
  exists v0 v1 v2 v3,
    Sequence.voices s = [v0; v1; v2; v3]
    /\ Voice.num v0 = 0%nat /\ Voice.num v1 = 1%nat
    /\ Voice.num v2 = 2%nat /\ Voice.num v3 = 3%nat
    /\ voice_bytes v0 /\ voice_bytes v1 /\ voice_bytes v2 /\ voice_bytes v3.

Lemma silent_Sequence_init data : silent (Sequence.init data).
Proof.
  unfold Sequence.init.
  repeat (apply silent_bind; [first [apply silent_Voice_init | apply silent_getitem]|intros ?]).
  apply silent_ret.
Qed.

Lemma Sequence_init_Ok_inv data out s :
  Sequence.init data = (out, Ok s) ->
  out = [] /\ exists v0 v1 v2 v3 b,
    Voice.init 0 data = ([], Ok v0)
    /\ Voice.init 1 (drop 3 data) = ([], Ok v1)
    /\ Voice.init 2 (drop 6 data) = ([], Ok v2)
    /\ Voice.init 3 (drop 9 data) = ([], Ok v3)
    /\ data !! 12%nat = Some b
    /\ s = Sequence.mk [v0; v1; v2; v3] (byte_val b).
Proof.
  intros H. split; [eapply silent_eq, H; apply silent_Sequence_init|].
  unfold Sequence.init in H.
  apply bind_Ok_inv in H as (o0 & v0 & ? & H0 & H & ->).
  apply bind_Ok_inv in H as (o1 & v1 & ? & H1 & H & ->).
  apply bind_Ok_inv in H as (o2 & v2 & ? & H2 & H & ->).
  apply bind_Ok_inv in H as (o3 & v3 & ? & H3 & H & ->).
  apply bind_Ok_inv in H as (o4 & sp & ? & H4 & H & ->).
  ret_inv H.
  apply getitem_Ok_inv in H4 as (_ & b & ? & ->).
  pose proof (silent_eq _ _ _ (silent_Voice_init _ _) H0).
  pose proof (silent_eq _ _ _ (silent_Voice_init _ _) H1).
  pose proof (silent_eq _ _ _ (silent_Voice_init _ _) H2).
  pose proof (silent_eq _ _ _ (silent_Voice_init _ _) H3).
  subst. exists v0, v1, v2, v3, b. done.
Qed.

Lemma Sequence_init_shape data out s :
  Sequence.init data = (out, Ok s) -> sequence_shape s.
Proof.
  intros H. apply Sequence_init_Ok_inv in H
    as (_ & v0 & v1 & v2 & v3 & b & H0 & H1 & H2 & H3 & _ & ->).
  apply Voice_init_bytes in H0 as [? ?]. apply Voice_init_bytes in H1 as [? ?].
  apply Voice_init_bytes in H2 as [? ?]. apply Voice_init_bytes in H3 as [? ?].
  exists v0, v1, v2, v3. simpl. tauto.
Qed.

(** A record of 13 bytes always decodes. *)
Lemma Sequence_init_total data :
  (13 <= length data)%nat -> exists s, Sequence.init data = ([], Ok s).
Proof.
  intros Hlen.
  assert (forall i, (i < 13)%nat -> exists b, data !! i = Some b) as Hget.
  { intros i Hi. apply lookup_lt_is_Some_2. lia. }
  destruct (Hget 0%nat) as [b0 E0]; [lia|]. destruct (Hget 1%nat) as [b1 E1]; [lia|].
  destruct (Hget 2%nat) as [b2 E2]; [lia|]. destruct (Hget 3%nat) as [b3 E3]; [lia|].
  destruct (Hget 4%nat) as [b4 E4]; [lia|]. destruct (Hget 5%nat) as [b5 E5]; [lia|].
  destruct (Hget 6%nat) as [b6 E6]; [lia|]. destruct (Hget 7%nat) as [b7 E7]; [lia|].
  destruct (Hget 8%nat) as [b8 E8]; [lia|]. destruct (Hget 9%nat) as [b9 E9]; [lia|].
  destruct (Hget 10%nat) as [b10 E10]; [lia|].
  destruct (Hget 11%nat) as [b11 E11]; [lia|].
  destruct (Hget 12%nat) as [b12 E12]; [lia|].
  unfold Sequence.init.
  rewrite (Voice_init_Ok 0 data b0 b1 b2), bind_ret_l by done.
  rewrite (Voice_init_Ok 1 (drop 3 data) b3 b4 b5), bind_ret_l
    by (rewrite lookup_drop; done).
  rewrite (Voice_init_Ok 2 (drop 6 data) b6 b7 b8), bind_ret_l
    by (rewrite lookup_drop; done).
  rewrite (Voice_init_Ok 3 (drop 9 data) b9 b10 b11), bind_ret_l
    by (rewrite lookup_drop; done).
  rewrite (getitem_Some _ _ _ E12), bind_ret_l. eauto.
Qed.

Section SilentMap.

Context {A B : Type} (f : A -> M B) (Hf : forall x, silent (f x)).

Lemma mapM_silent_Ok_inv l out ys :
  mapM f l = (out, Ok ys) ->
  out = [] /\ Forall2 (fun x y => f x = ([], Ok y)) l ys.
Proof using Hf.
  revert out ys. induction l as [|x l IH]; intros out ys H; cbn [mapM] in H.
  - ret_inv H. split; [done|constructor].
  - apply bind_Ok_inv in H as (o1 & y & ? & Hx & H & ->).
    apply bind_Ok_inv in H as (o2 & ys' & ? & Hl & H & ->).
    ret_inv H. pose proof (silent_eq _ _ _ (Hf x) Hx). subst o1.
    destruct (IH _ _ Hl) as [-> HF]. split; [done|]. by constructor.
Qed.

Lemma mapM_silent_Ok l ys :
  Forall2 (fun x y => f x = ([], Ok y)) l ys -> mapM f l = ([], Ok ys).
Proof.
  induction 1 as [|x y l ys Hx _ IH]; cbn [mapM]; [done|].
  rewrite Hx, IH. reflexivity.
Qed.

End SilentMap.

(** The bytes of sequence record [i]. *)
Definition record_at (contents : list byte) (sequence_offset : Z) (i : nat)
    : list byte :=
  drop (Z.to_nat sequence_offset + i * 13)%nat contents.

(** The indices the loop of line 129 keeps. *)
Definition window (args : Args.t) (num_sequences : Z) : list nat :=
  List.filter (in_window args) (seq 0 (Z.to_nat num_sequences)).

Lemma read_loop args contents off l acc :
  for_each (read_sequence args contents off) l acc
  = (ys <- mapM (fun i => Sequence.init (record_at contents off i))
             (List.filter (in_window args) l) ;;
     ret (acc ++ ys)).
Proof.
  revert acc. induction l as [|i l IH]; intros acc; cbn [for_each List.filter mapM].
  - rewrite bind_ret_l. unfold ret. by rewrite app_nil_r.
  - unfold read_sequence at 1. destruct (in_window args i); cbn [mapM].
    + fold (record_at contents off i). unfold bind at 1 2 3 4.
      destruct (Sequence.init (record_at contents off i)) as [o [s|e]]; [|done].
      unfold ret at 1. rewrite IH. unfold bind, ret.
      destruct (mapM _ _) as [o' [ys|e']]; rewrite ?app_nil_r; [|done].
      by rewrite <- app_assoc.
    + rewrite bind_ret_l. apply IH.
Qed.

(** What a module that was constructed holds. *)
Record decoded (args : Args.t) (buf : list byte) (out : list string) (m : t)
    : Prop := {
  dec_args : FutureComposerModule.args m = args;
  dec_contents : contents m = buf;
  dec_magic : magic m = take 4 buf;
  dec_variant :
    (magic m = FC14 /\ sequence_offset m = 180)
    \/ (magic m = SMOD /\ sequence_offset m = 100);
  dec_size : sequence_data_size m = field buf 4;
  dec_pattern_offset : pattern_offset m = field buf 8;
  dec_sequences :
    Forall2 (fun i s => Sequence.init (record_at buf (sequence_offset m) i) = ([], Ok s))
      (window args (field buf 4 / 13)) (sequences m);
  dec_used : used_patterns m = collect_used (sequences m);
  dec_out :
    out = if (64 <? length (used_patterns m))%nat then [overflow_warning] else []
}.

Lemma check_magic_Ok_inv magic out u :
  check_magic magic = (out, Ok u) -> out = [] /\ (magic = SMOD \/ magic = FC14).
Proof.
  unfold check_magic.
  destruct (bool_decide (magic ≠ SMOD)) eqn:E1;
    destruct (bool_decide (magic ≠ FC14)) eqn:E2; simpl; try discriminate;
    intros H; ret_inv H; split; try done.
  - right. apply bool_decide_eq_false in E2. by destruct (decide (magic = FC14)).
  - left. apply bool_decide_eq_false in E1. by destruct (decide (magic = SMOD)).
  - left. apply bool_decide_eq_false in E1. by destruct (decide (magic = SMOD)).
Qed.

Lemma init_decoded args buf out m :
  init args buf = (out, Ok m) -> decoded args buf out m.
Proof.
  unfold init. intros H.
  apply bind_Ok_inv in H as (o1 & mg & ? & Hm & H & ->).
  apply bind_Ok_inv in H as (o2 & [] & ? & Hc & H & ->).
  apply bind_Ok_inv in H as (o3 & [[wt sd] off] & ? & Hv & H & ->).
  apply bind_Ok_inv in H as (o4 & sqs & ? & Hs & H & ->).
  apply bind_Ok_inv in H as (o5 & [] & ? & Hw & H & ->).
  ret_inv H.
  unfold struct_unpack_4s in Hm.
  destruct (length (slice buf 0 4) =? 4)%nat; [|discriminate]. ret_inv Hm.
  apply check_magic_Ok_inv in Hc as [-> Hmagic].
  rewrite read_loop in Hs.
  apply bind_Ok_inv in Hs as (o6 & ys & ? & Hs & Hr & ->). ret_inv Hr.
  apply mapM_silent_Ok_inv in Hs as [-> HF]; [|intros; apply silent_Sequence_init].
  assert (o3 = [] /\ ((slice buf 0 4 = FC14 /\ off = 180)
                      \/ (slice buf 0 4 = SMOD /\ off = 100))) as [-> Hoff].
  { unfold variant_fields in Hv.
    destruct (bool_decide (slice buf 0 4 = FC14)) eqn:E1.
    - ret_inv Hv. apply bool_decide_eq_true in E1. auto.
    - destruct (bool_decide (slice buf 0 4 = SMOD)) eqn:E2; [|discriminate].
      ret_inv Hv. apply bool_decide_eq_true in E2. auto. }
  split; simpl; try done. rewrite app_nil_r.
  destruct (64 <? length (collect_used sqs))%nat; unfold print, ret in Hw;
    injection Hw as <-; done.
Qed.

Lemma mapM_total {A B} (f : A -> M B) l :
  (forall x, x ∈ l -> exists y, f x = ([], Ok y)) ->
  exists ys, mapM f l = ([], Ok ys).
Proof.
  induction l as [|x l IH]; intros H; cbn [mapM]; [by exists []|].
  destruct (H x) as [y Hy]; [left|].
  destruct IH as [ys Hys]; [intros; apply H; by right|].
  exists (y :: ys). by rewrite Hy, Hys.
Qed.

(** Where the sequence table starts, from the tag. *)
Definition sequence_offset_of (buf : list byte) : Z :=
  if bool_decide (take 4 buf = FC14) then 180 else 100.

(** The records of the window lie inside the buffer. *)
Definition records_in_range (args : Args.t) (buf : list byte) : bool :=
  forallb
    (fun i => (Z.to_nat (sequence_offset_of buf) + i * 13 + 13 <=? length buf)%nat)
    (window args (field buf 4 / 13)).

Lemma records_in_range_spec args buf i :
  records_in_range args buf = true ->
  i ∈ window args (field buf 4 / 13) ->
  (Z.to_nat (sequence_offset_of buf) + i * 13 + 13 <= length buf)%nat.
Proof.
  unfold records_in_range. rewrite forallb_forall. intros H Hi.
  apply Nat.leb_le, H. by apply list_elem_of_In.
Qed.

Lemma decoded_sequence_offset args buf out m :
  decoded args buf out m -> sequence_offset m = sequence_offset_of buf.
Proof.
  intros D. unfold sequence_offset_of.
  destruct (dec_variant _ _ _ _ D) as [[Hm ->]|[Hm ->]];
    rewrite (dec_magic _ _ _ _ D) in Hm; rewrite Hm; done.
Qed.

(** With a known tag and the records of the window present, the
    constructor returns. *)
Lemma init_total args buf :
  take 4 buf = SMOD \/ take 4 buf = FC14 ->
  records_in_range args buf = true ->
  exists out m, init args buf = (out, Ok m).
Proof.
  intros Hmagic Hrange. unfold init.
  assert (slice buf 0 4 = take 4 buf) as -> by reflexivity.
  assert (struct_unpack_4s (take 4 buf) = ret (take 4 buf)) as ->.
  { unfold struct_unpack_4s. by destruct Hmagic as [-> | ->]. }
  rewrite bind_ret_l.
  assert (check_magic (take 4 buf) = ret tt) as ->.
  { unfold check_magic. by destruct Hmagic as [-> | ->]. }
  rewrite bind_ret_l.
  assert (exists wt sd, variant_fields (take 4 buf) buf
                        = ret (wt, sd, sequence_offset_of buf)) as (wt & sd & ->).
  { unfold variant_fields, sequence_offset_of.
    destruct Hmagic as [-> | ->]; simpl; eauto. }
  rewrite bind_ret_l. rewrite read_loop.
  destruct (mapM_total (fun i => Sequence.init (record_at buf (sequence_offset_of buf) i))
              (window args (field buf 4 / 13))) as [ys Hys].
  { intros i Hi. apply Sequence_init_total. unfold record_at.
    rewrite length_drop. pose proof (records_in_range_spec _ _ _ Hrange Hi). lia. }
  fold (window args (field buf 4 / 13)). rewrite Hys. unfold bind at 2. cbn [app].
  unfold bind at 1. unfold ret at 1.
  destruct (64 <? length (collect_used ys))%nat; unfold bind, print, ret; cbn; eauto.
Qed.

Lemma elem_of_window args num (i : nat) :
  i ∈ window args num
  <-> Z.of_nat i < num /\ Args.start args <= Z.of_nat i
      /\ (Z.of_nat i <= Args.end_ args \/ Args.end_ args = -1).
Proof.
  unfold window, in_window.
  rewrite list_elem_of_In, filter_In, in_seq, andb_true_iff, orb_true_iff.
  rewrite Z.geb_le, Z.leb_le, Z.eqb_eq. lia.
Qed.

(** When the constructor returned, the records of the window were there. *)
Lemma decoded_records_in_range args buf out m :
  decoded args buf out m -> records_in_range args buf = true.
Proof.
  intros D. unfold records_in_range. apply forallb_forall. intros i Hi.
  apply list_elem_of_In in Hi. apply Nat.leb_le.
  pose proof (dec_sequences _ _ _ _ D) as HF.
  rewrite (decoded_sequence_offset _ _ _ _ D) in HF.
  apply list_elem_of_lookup in Hi as [k Hk].
  destruct (Forall2_lookup_l _ _ _ _ _ HF Hk) as (s & _ & Hs).
  apply Sequence_init_Ok_inv in Hs as (_ & v0 & v1 & v2 & v3 & b & _ & _ & _ & _ & Hb & _).
  apply lookup_lt_Some in Hb. unfold record_at in Hb. rewrite length_drop in Hb.
  lia.
Qed.

(** C6: the module has [sequence_data_size // 13] sequence records, the
    record of index [i] is read at [sequence_offset + i*13] exactly when
    [start <= i] and ([i <= end] or [end = -1]), in index order; the other
    indices are skipped: the constructor returns exactly when the tag is
    known and the records of the window are inside the buffer, wherever
    the other records are. *)
Theorem sequences_decoded_in_window (args : Args.t) (buf : list byte) :
  (forall out m, init args buf = (out, Ok m) ->
     let num_sequences := sequence_data_size m / 13 in
     sequence_data_size m = from_bytes_big (slice buf 4 8)
     /\ Forall2
          (fun i s =>
             Sequence.init (drop (Z.to_nat (sequence_offset m) + i * 13)%nat buf)
             = ([], Ok s))
          (window args num_sequences) (sequences m)
     /\ (forall i : nat,
           i ∈ window args num_sequences
           <-> Z.of_nat i < num_sequences /\ Args.start args <= Z.of_nat i
               /\ (Z.of_nat i <= Args.end_ args \/ Args.end_ args = -1))
     /\ records_in_range args buf = true)
  /\ ((take 4 buf = SMOD \/ take 4 buf = FC14) ->
      records_in_range args buf = true ->
      exists out m, init args buf = (out, Ok m)).
Proof.
  split; [|apply init_total].
  intros out m H. apply init_decoded in H as D. cbv zeta.
  rewrite (dec_size _ _ _ _ D). split; [reflexivity|]. split; [|split].
  - exact (dec_sequences _ _ _ _ D).
  - intros i. apply elem_of_window.
  - eapply decoded_records_in_range, D.
Qed.

(** ** The set of used patterns *)

(** The dedup keys of the voices, in sequence order then channel order. *)
Definition voice_keys (sequences : list Sequence.t) : list Z :=
  map Voice.hash (concat (map Sequence.voices sequences)).

(** Lines 137-138 on a key. *)
Definition add_key (used : list Z) (k : Z) : list Z :=
  if bool_decide (k ∈ used) then used else used ++ [k].

(** The set after the keys [keys] were met, starting from nothing. *)
Definition seen (keys : list Z) : list Z := fold_left add_key keys [].

Lemma collect_used_seen sequences :
  collect_used sequences = seen (voice_keys sequences).
Proof.
  unfold collect_used, seen, voice_keys. generalize (@nil Z) as acc.
  induction sequences as [|sq sqs IH]; intros acc; simpl; [done|].
  rewrite IH, map_app, fold_left_app. f_equal.
  generalize acc. clear. induction (Sequence.voices sq) as [|v vs IH];
    intros acc; simpl; [done|]. apply IH.
Qed.

Section FirstSeen.

Implicit Types (used keys : list Z) (k : Z).

Lemma add_key_prefix used k : used `prefix_of` add_key used k.
Proof.
  unfold add_key. case_bool_decide; [done|]. by apply prefix_app_r.
Qed.

Lemma fold_add_key_prefix keys used :
  used `prefix_of` fold_left add_key keys used.
Proof.
  revert used. induction keys as [|k keys IH]; intros used; simpl; [done|].
  etrans; [apply add_key_prefix|apply IH].
Qed.

Lemma elem_of_add_key used k x : x ∈ add_key used k <-> x ∈ used \/ x = k.
Proof.
  unfold add_key. case_bool_decide.
  - split; [auto|]. intros [?| ->]; done.
  - rewrite elem_of_app, list_elem_of_singleton. done.
Qed.

Lemma elem_of_fold_add_key keys used x :
  x ∈ fold_left add_key keys used <-> x ∈ used \/ x ∈ keys.
Proof.
  revert used. induction keys as [|k keys IH]; intros used; simpl.
  - rewrite elem_of_nil. tauto.
  - rewrite IH, elem_of_add_key, elem_of_cons. tauto.
Qed.

Lemma NoDup_add_key used k : NoDup used -> NoDup (add_key used k).
Proof.
  intros H. unfold add_key. case_bool_decide; [done|].
  apply NoDup_app. split; [done|]. split; [|apply NoDup_singleton].
  intros x Hx Hk. apply list_elem_of_singleton in Hk. by subst.
Qed.

Lemma NoDup_fold_add_key keys used :
  NoDup used -> NoDup (fold_left add_key keys used).
Proof.
  revert used. induction keys as [|k keys IH]; intros used H; simpl; [done|].
  by apply IH, NoDup_add_key.
Qed.

Lemma NoDup_seen keys : NoDup (seen keys).
Proof. apply NoDup_fold_add_key, NoDup_nil_2. Qed.

Lemma elem_of_seen keys x : x ∈ seen keys <-> x ∈ keys.
Proof. unfold seen. rewrite elem_of_fold_add_key, elem_of_nil. tauto. Qed.

(** As many entries as distinct keys. *)
Lemma length_seen keys : length (seen keys) = length (remove_dups keys).
Proof.
  apply Permutation_length, NoDup_Permutation.
  - apply NoDup_seen.
  - apply NoDup_remove_dups.
  - intros x. by rewrite elem_of_seen, elem_of_remove_dups.
Qed.

Lemma seen_snoc keys k : seen (keys ++ [k]) = add_key (seen keys) k.
Proof. unfold seen. by rewrite fold_left_app. Qed.

Lemma seen_app keys1 keys2 :
  seen (keys1 ++ keys2) = fold_left add_key keys2 (seen keys1).
Proof. unfold seen. by rewrite fold_left_app. Qed.

Lemma list_index_Some x l i :
  list_index x l = Some i -> l !! i = Some x /\ x ∉ take i l.
Proof.
  revert i. induction l as [|y l IH]; intros i; simpl; [done|].
  case_decide as Hy.
  - intros [= <-]. subst. split; [done|]. simpl. apply not_elem_of_nil.
  - destruct (list_index x l) as [j|]; [|done]. intros [= <-].
    destruct (IH j eq_refl) as [? ?]. split; [done|]. simpl.
    rewrite not_elem_of_cons. split; [congruence|done].
Qed.

Lemma list_index_elem_of x l : x ∈ l -> is_Some (list_index x l).
Proof.
  induction 1 as [y l|y z l _ IH]; simpl.
  - rewrite decide_True by done. eauto.
  - case_decide; [eauto|]. destruct IH as [j ->]. simpl. eauto.
Qed.

Lemma list_index_app_fresh x l1 l2 :
  x ∉ l1 -> list_index x (l1 ++ x :: l2) = Some (length l1).
Proof.
  induction l1 as [|y l1 IH]; intros H; simpl.
  - by rewrite decide_True.
  - apply not_elem_of_cons in H as [? ?].
    rewrite decide_False by congruence. by rewrite IH.
Qed.

(** The index of a key is the number of distinct keys met before it. *)
Lemma list_index_seen keys j k :
  keys !! j = Some k -> k ∉ take j keys ->
  list_index k (seen keys) = Some (length (remove_dups (take j keys))).
Proof.
  intros Hj Hfresh. rewrite <- length_seen.
  rewrite <- (take_drop j keys) at 1. rewrite seen_app.
  rewrite (drop_S _ _ _ Hj). simpl.
  assert (add_key (seen (take j keys)) k = seen (take j keys) ++ [k]) as Hadd.
  { unfold add_key. rewrite bool_decide_eq_false_2; [done|].
    by rewrite elem_of_seen. }
  rewrite Hadd.
  destruct (fold_add_key_prefix (drop (S j) keys) (seen (take j keys) ++ [k]))
    as [rest ->].
  rewrite <- app_assoc. simpl. apply list_index_app_fresh.
  by rewrite elem_of_seen.
Qed.

End FirstSeen.

(** C4: the set of used patterns has no duplicates and holds exactly the
    keys of the in-scope voices; walking the voices in sequence order then
    channel order, a key is appended exactly when the set does not hold it
    yet, and the index of a key is the number of distinct keys met before
    its first occurrence. *)
Theorem used_patterns_first_seen (args : Args.t) (buf : list byte)
    (out : list string) (m : FutureComposerModule.t) :
  init args buf = (out, Ok m) ->
  let keys := voice_keys (sequences m) in
  NoDup (used_patterns m)
  /\ (forall k, k ∈ used_patterns m <-> k ∈ keys)
  /\ used_patterns m = seen keys
  /\ (forall j k, keys !! j = Some k ->
        seen (take (S j) keys)
        = (if bool_decide (k ∈ seen (take j keys)) then seen (take j keys)
           else seen (take j keys) ++ [k])
        /\ (k ∈ seen (take j keys) <-> k ∈ take j keys)
        /\ (k ∉ take j keys ->
            list_index k (used_patterns m)
            = Some (length (remove_dups (take j keys)))
            /\ used_patterns m !! length (remove_dups (take j keys)) = Some k)).
Proof.
  intros H keys. apply init_decoded in H as D.
  assert (used_patterns m = seen keys) as Hused.
  { rewrite (dec_used _ _ _ _ D). apply collect_used_seen. }
  rewrite Hused. split; [apply NoDup_seen|]. split; [apply elem_of_seen|].
  split; [done|]. intros j k Hj. split; [|split].
  - rewrite (take_S_r _ _ _ Hj), seen_snoc. reflexivity.
  - apply elem_of_seen.
  - intros Hfresh. pose proof (list_index_seen _ _ _ Hj Hfresh) as Hi.
    split; [done|]. by apply list_index_Some in Hi as [? _].
Qed.

(** ** The dedup key *)

Lemma hash_pat_num (v : Voice.t) :
  voice_bytes v -> Z.land (Voice.hash v) 255 = Voice.pattern v.
Proof.
  intros (Hp & Ht & Hs). unfold Voice.hash.
  change 255 with (Z.ones 8). rewrite Z.land_ones by lia.
  change (2 ^ 8) with 256.
  replace (Voice.pattern v + Voice.transpose v * 256 + Voice.sound_transpose v * 65536)
    with (Voice.pattern v + (Voice.transpose v + Voice.sound_transpose v * 256) * 256)
    by lia.
  rewrite Z.mod_add by lia. apply Z.mod_small. lia.
Qed.

Lemma hash_pat_transpose (v : Voice.t) :
  voice_bytes v ->
  Z.land (Z.shiftr (Voice.hash v) 8) 255 = Voice.transpose v.
Proof.
  intros (Hp & Ht & Hs). unfold Voice.hash.
  change 255 with (Z.ones 8). rewrite Z.land_ones by lia.
  rewrite Z.shiftr_div_pow2 by lia. change (2 ^ 8) with 256.
  replace (Voice.pattern v + Voice.transpose v * 256 + Voice.sound_transpose v * 65536)
    with (Voice.pattern v + (Voice.transpose v + Voice.sound_transpose v * 256) * 256)
    by lia.
  rewrite Z.div_add by lia. rewrite (Z.div_small (Voice.pattern v)) by lia.
  rewrite Z.add_0_l, Z.mod_add by lia. apply Z.mod_small. lia.
Qed.

(** Equal keys are equal triples, and conversely. *)
Lemma hash_inj (v1 v2 : Voice.t) :
  voice_bytes v1 -> voice_bytes v2 ->
  Voice.hash v1 = Voice.hash v2
  <-> Voice.pattern v1 = Voice.pattern v2
      /\ Voice.transpose v1 = Voice.transpose v2
      /\ Voice.sound_transpose v1 = Voice.sound_transpose v2.
Proof.
  intros (? & ? & ?) (? & ? & ?). unfold Voice.hash. lia.
Qed.

(** ** Sequences: from voices to channel slots *)

(** What [convert_voice] leaves in the slot of a voice. *)
Definition slot_of (used : list Z) (v : Voice.t) : option Z :=
  if Z.land (Voice.hash v) 255 >? 0 then Z.of_nat <$> list_index (Voice.hash v) used
  else None.

Lemma convert_voice_spec m cs v :
  Voice.hash v ∈ used_patterns m ->
  (Voice.num v < length (PICO8Sequence.channels cs))%nat ->
  convert_voice m cs v
  = ret (PICO8Sequence.mk
           (match slot_of (used_patterns m) v with
            | Some p => <[Voice.num v := Some p]> (PICO8Sequence.channels cs)
            | None => PICO8Sequence.channels cs
            end)).
Proof.
  intros Hin Hnum. unfold convert_voice, slot_of.
  destruct (Z.land (Voice.hash v) 255 >? 0); [|by destruct cs].
  destruct (list_index_elem_of _ _ Hin) as [i ->]. simpl.
  unfold PICO8Sequence.set. apply Nat.ltb_lt in Hnum. by rewrite Hnum.
Qed.

Lemma convert_sequence_spec m sq :
  sequence_shape sq ->
  (forall v, v ∈ Sequence.voices sq -> Voice.hash v ∈ used_patterns m) ->
  convert_sequence m sq
  = ret (PICO8Sequence.mk (map (slot_of (used_patterns m)) (Sequence.voices sq))).
Proof.
  intros (v0 & v1 & v2 & v3 & Hv & N0 & N1 & N2 & N3 & _) Hin.
  unfold convert_sequence. rewrite Hv in *. cbn [for_each map].
  rewrite convert_voice_spec, bind_ret_l; [|apply Hin; repeat constructor|rewrite N0; simpl; lia].
  rewrite convert_voice_spec, bind_ret_l;
    [|apply Hin; repeat constructor
     |rewrite N1; cbn [PICO8Sequence.channels]; destruct (slot_of _ v0);
      rewrite ?length_insert; simpl; lia].
  rewrite convert_voice_spec, bind_ret_l;
    [|apply Hin; repeat constructor
     |rewrite N2; cbn [PICO8Sequence.channels];
      destruct (slot_of _ v0), (slot_of _ v1);
      rewrite ?length_insert; simpl; lia].
  rewrite convert_voice_spec;
    [|apply Hin; repeat constructor
     |rewrite N3; cbn [PICO8Sequence.channels];
      destruct (slot_of _ v0), (slot_of _ v1), (slot_of _ v2);
      rewrite ?length_insert; simpl; lia].
  rewrite N0, N1, N2, N3. cbn [PICO8Sequence.channels PICO8Sequence.init].
  destruct (slot_of _ v0), (slot_of _ v1), (slot_of _ v2), (slot_of _ v3);
    reflexivity.
Qed.

Lemma mapM_ret {A B} (f : A -> M B) (g : A -> B) l :
  (forall x, x ∈ l -> f x = ret (g x)) -> mapM f l = ret (map g l).
Proof.
  induction l as [|x l IH]; intros H; cbn [mapM map]; [done|].
  rewrite H, bind_ret_l by left. rewrite IH, bind_ret_l; [done|].
  intros; apply H; by right.
Qed.

Lemma elem_of_concat {A} (x : A) (ls : list (list A)) :
  x ∈ concat ls <-> exists l, x ∈ l /\ l ∈ ls.
Proof.
  rewrite list_elem_of_In, in_concat. split; intros (l & H1 & H2); exists l.
  - by rewrite !list_elem_of_In.
  - by rewrite <- !list_elem_of_In.
Qed.

(** The sequences of a constructed module have the decoded shape, and
    their keys are in the set of used patterns. *)
Lemma decoded_shapes args buf out m sq :
  decoded args buf out m -> sq ∈ sequences m -> sequence_shape sq.
Proof.
  intros D Hsq. apply list_elem_of_lookup in Hsq as [k Hk].
  destruct (Forall2_lookup_r _ _ _ _ _ (dec_sequences _ _ _ _ D) Hk) as (i & _ & Hi).
  eapply Sequence_init_shape, Hi.
Qed.

Lemma shape_voice_bytes sq v :
  sequence_shape sq -> v ∈ Sequence.voices sq -> voice_bytes v.
Proof.
  intros (v0 & v1 & v2 & v3 & -> & _ & _ & _ & _ & B0 & B1 & B2 & B3) Hv.
  repeat (apply elem_of_cons in Hv as [->|Hv]; [done|]).
  by apply elem_of_nil in Hv.
Qed.

Lemma decoded_key_used args buf out m sq v :
  decoded args buf out m -> sq ∈ sequences m -> v ∈ Sequence.voices sq ->
  Voice.hash v ∈ used_patterns m.
Proof.
  intros D Hsq Hv. rewrite (dec_used _ _ _ _ D), collect_used_seen, elem_of_seen.
  unfold voice_keys. apply list_elem_of_fmap. exists v. split; [done|].
  apply elem_of_concat. exists (Sequence.voices sq). split; [done|].
  apply list_elem_of_fmap. eauto.
Qed.

(** For a constructed module [convert_sequences] always returns, without
    printing: one converted sequence per sequence, slot by slot. *)
Lemma convert_sequences_spec args buf out m :
  decoded args buf out m ->
  convert_sequences m
  = ret (map (fun sq => PICO8Sequence.mk
                (map (slot_of (used_patterns m)) (Sequence.voices sq)))
           (sequences m)).
Proof.
  intros D. unfold convert_sequences. rewrite for_each_append.
  rewrite (mapM_ret _ (fun sq => PICO8Sequence.mk
             (map (slot_of (used_patterns m)) (Sequence.voices sq)))).
  - by rewrite bind_ret_l.
  - intros sq Hsq. apply convert_sequence_spec.
    + eapply decoded_shapes; eauto.
    + intros v Hv. eapply decoded_key_used; eauto.
Qed.

(** The text of a channel slot. *)
Definition slot_code (i : nat) (slot : option Z) : string :=
  match slot with
  | Some p => fmt_02x p
  | None => fmt_02x (64 + Z.of_nat i + 1)
  end.

Lemma channel_code_slot cs i slot :
  PICO8Sequence.channels cs !! i = Some slot ->
  PICO8Sequence.channel_code cs i = ret (slot_code i slot).
Proof. unfold PICO8Sequence.channel_code. intros ->. by destruct slot. Qed.

Lemma sequence_format_spec cs a b c d :
  PICO8Sequence.channels cs = [a; b; c; d] ->
  PICO8Sequence.format cs
  = ret ("00 " +:+ slot_code 0 a +:+ slot_code 1 b +:+ slot_code 2 c
         +:+ slot_code 3 d).
Proof.
  intros H. unfold PICO8Sequence.format. cbn [seq for_each].
  rewrite (channel_code_slot cs 0 a), bind_ret_l, bind_ret_l by (by rewrite H).
  rewrite (channel_code_slot cs 1 b), bind_ret_l, bind_ret_l by (by rewrite H).
  rewrite (channel_code_slot cs 2 c), bind_ret_l, bind_ret_l by (by rewrite H).
  rewrite (channel_code_slot cs 3 d), bind_ret_l by (by rewrite H).
  by rewrite !string_app_assoc.
Qed.

Lemma slot_of_cases used v :
  voice_bytes v -> Voice.hash v ∈ used ->
  (Voice.pattern v = 0 /\ slot_of used v = None)
  \/ (Voice.pattern v <> 0 /\ exists i,
        list_index (Voice.hash v) used = Some i
        /\ used !! i = Some (Voice.hash v)
        /\ slot_of used v = Some (Z.of_nat i)).
Proof.
  intros Hb Hin. unfold slot_of. rewrite (hash_pat_num v Hb).
  destruct Hb as (Hp & _). destruct (Voice.pattern v >? 0) eqn:E.
  - right. split; [lia|]. destruct (list_index_elem_of _ _ Hin) as [i Hi].
    exists i. rewrite Hi. split; [done|]. split; [|done].
    by apply list_index_Some in Hi as [? _].
  - left. split; [lia|done].
Qed.

Lemma sentinel_codes (c : nat) :
  (c < 4)%nat ->
  fmt_02x (64 + Z.of_nat c + 1) <> fmt_02x 0
  /\ String.length (fmt_02x (64 + Z.of_nat c + 1)) = 2%nat.
Proof.
  intros Hc.
  destruct c as [|[|[|[|c]]]]; [split; [by vm_compute|done]..|lia].
Qed.

(** C5, amended: in every in-scope sequence, the code of channel [c] is
    the sentinel [0x40 + c + 1] in hexadecimal when the pattern number of
    the voice is 0 (the slot holds no index, and the code is never that of
    index 0), and otherwise the [%02x] rendering of the index of the key of
    the voice in the set of used patterns, which has two hexadecimal digits
    when the index is at most 255.  The line is ["00 "] followed by the
    four codes. *)
Theorem channel_codes (args : Args.t) (buf : list byte)
    (out : list string) (m : FutureComposerModule.t) :
  init args buf = (out, Ok m) ->
  exists cseqs,
    convert_sequences m = ([], Ok cseqs)
    /\ length cseqs = length (sequences m)
    /\ forall s sq, sequences m !! s = Some sq ->
         exists cs c0 c1 c2 c3,
           cseqs !! s = Some cs
           /\ PICO8Sequence.format cs
              = ([], Ok ("00 " +:+ c0 +:+ c1 +:+ c2 +:+ c3))
           /\ forall c v, Sequence.voices sq !! c = Some v ->
                (c < 4)%nat
                /\ exists code,
                     [c0; c1; c2; c3] !! c = Some code
                     /\ PICO8Sequence.channel_code cs c = ([], Ok code)
                     /\ (Voice.pattern v = 0 ->
                         PICO8Sequence.channels cs !! c = Some None
                         /\ code = fmt_02x (64 + Z.of_nat c + 1)
                         /\ code <> fmt_02x 0)
                     /\ (Voice.pattern v <> 0 ->
                         exists i,
                           list_index (Voice.hash v) (used_patterns m) = Some i
                           /\ used_patterns m !! i = Some (Voice.hash v)
                           /\ PICO8Sequence.channels cs !! c
                              = Some (Some (Z.of_nat i))
                           /\ code = fmt_02x (Z.of_nat i)
                           /\ ((i <= 255)%nat -> String.length code = 2%nat)).
Proof.
  intros H. apply init_decoded in H as D.
  eexists. split; [apply (convert_sequences_spec _ _ _ _ D)|].
  split; [by rewrite length_map|]. intros s sq Hsq.
  assert (sq ∈ sequences m) as Hin by (eapply list_elem_of_lookup_2, Hsq).
  pose proof (decoded_shapes _ _ _ _ _ D Hin) as Hshape.
  pose proof Hshape as (v0 & v1 & v2 & v3 & Hv & _).
  set (used := used_patterns m).
  exists (PICO8Sequence.mk (map (slot_of used) (Sequence.voices sq))),
    (slot_code 0 (slot_of used v0)), (slot_code 1 (slot_of used v1)),
    (slot_code 2 (slot_of used v2)), (slot_code 3 (slot_of used v3)).
  split; [by rewrite list_lookup_fmap, Hsq|].
  split; [apply sequence_format_spec; by rewrite Hv|].
  intros c v Hc.
  assert (v ∈ Sequence.voices sq) as Hvin by (eapply list_elem_of_lookup_2, Hc).
  assert (voice_bytes v) as Bv by (eapply shape_voice_bytes; eauto).
  assert (Voice.hash v ∈ used) as Hused by (eapply decoded_key_used; eauto).
  assert (c < 4)%nat as Hc4.
  { apply lookup_lt_Some in Hc. by rewrite Hv in Hc. }
  split; [done|]. exists (slot_code c (slot_of used v)).
  assert (PICO8Sequence.channels
            (PICO8Sequence.mk (map (slot_of used) (Sequence.voices sq))) !! c
          = Some (slot_of used v)) as Hslot.
  { simpl. change (map (slot_of used) (Sequence.voices sq))
      with (slot_of used <$> Sequence.voices sq).
    by rewrite list_lookup_fmap, Hc. }
  split.
  { change [slot_code 0 (slot_of used v0); slot_code 1 (slot_of used v1);
            slot_code 2 (slot_of used v2); slot_code 3 (slot_of used v3)]
      with (imap (fun k w => slot_code k (slot_of used w)) [v0; v1; v2; v3]).
    rewrite list_lookup_imap, <- Hv, Hc. done. }
  split; [by apply channel_code_slot|].
  destruct (slot_of_cases used v Bv Hused) as [[Hz Hs]|[Hnz (i & Hi & Hl & Hs)]].
  - split; [|done]. intros _. rewrite Hslot, Hs. simpl.
    split; [done|]. split; [done|]. by apply sentinel_codes.
  - split; [done|]. intros _. exists i. rewrite Hslot, Hs. simpl.
    repeat (split; [done|]). intros Hle. apply fmt_02x_length. lia.
Qed.

(** ** Patterns: from source rows to PICO-8 rows *)

(** The note of line 157, before clamping. *)
Definition raw_note (m : FutureComposerModule.t) (pat_transpose : Z)
    (note : Z) : Z :=
  note + 24 + (pat_transpose + Args.transpose (args m)).

(** Lines 158-163 on the value. *)
Definition clamp (note : Z) : Z :=
  if note >? 63 then 63 else if note <? 0 then 0 else note.

(** Lines 158-163 on the printed lines. *)
Definition clamp_warnings (pat_num note : Z) : list string :=
  if note >? 63 then [warn_above pat_num]
  else if note <? 0 then [warn_below pat_num] else [].

(** The bytes [convert_row] reads for row [r] are there. *)
Definition row_readable (pattern : list byte) (r : nat) : bool :=
  match pattern !! (r * 2)%nat with
  | Some b =>
      if byte_val b >? 0 then bool_decide (is_Some (pattern !! (r * 2 + 1)%nat))
      else true
  | None => false
  end.

(** The row that [convert_row] stores for row [r], if any. *)
Definition converted_row (m : FutureComposerModule.t) (pat_transpose : Z)
    (pattern : list byte) (r : nat) : option PICO8Pattern.Row :=
  match pattern !! (r * 2)%nat, pattern !! (r * 2 + 1)%nat with
  | Some b, Some info =>
      if byte_val b >? 0 then
        Some (PICO8Pattern.mkRow
                (Some (clamp (raw_note m pat_transpose (byte_val b))))
                (Z.land (byte_val info) 7) 4 0)
      else None
  | _, _ => None
  end.

(** The lines [convert_row] prints for row [r]. *)
Definition row_warnings (m : FutureComposerModule.t) (pat_num pat_transpose : Z)
    (pattern : list byte) (r : nat) : list string :=
  match pattern !! (r * 2)%nat with
  | Some b =>
      if byte_val b >? 0
      then clamp_warnings pat_num (raw_note m pat_transpose (byte_val b))
      else []
  | None => []
  end.

Lemma clamp_max_min note : clamp note = Z.max 0 (Z.min 63 note).
Proof.
  unfold clamp. destruct (note >? 63) eqn:E1; [lia|].
  destruct (note <? 0) eqn:E2; lia.
Qed.

Section Rows.

Context (m : FutureComposerModule.t) (pat_num pat_transpose : Z)
  (pattern : list byte).

Lemma convert_row_readable p r o p' :
  convert_row m pat_num pat_transpose pattern p r = (o, Ok p') ->
  row_readable pattern r = true.
Proof.
  unfold convert_row, row_readable. intros H.
  apply bind_Ok_inv in H as (o1 & n & o2 & Hn & H & ->).
  apply getitem_Ok_inv in Hn as (-> & b & -> & ->).
  destruct (byte_val b >? 0); [|done].
  apply bind_Ok_inv in H as (o3 & info & o4 & Hi & H & ->).
  apply getitem_Ok_inv in Hi as (-> & bi & -> & _).
  apply bool_decide_eq_true. eauto.
Qed.

Lemma convert_row_spec p r :
  row_readable pattern r = true ->
  (r < length (PICO8Pattern.rows p))%nat ->
  convert_row m pat_num pat_transpose pattern p r
  = (row_warnings m pat_num pat_transpose pattern r,
     Ok (PICO8Pattern.mk
           (match converted_row m pat_transpose pattern r with
            | Some row => <[r := Some row]> (PICO8Pattern.rows p)
            | None => PICO8Pattern.rows p
            end)
           (PICO8Pattern.speed p))).
Proof.
  unfold convert_row, row_readable, row_warnings, converted_row.
  intros Hr Hlen. destruct (pattern !! (r * 2)%nat) as [b|] eqn:Eb; [|done].
  rewrite (getitem_Some _ _ _ Eb), bind_ret_l.
  destruct (byte_val b >? 0) eqn:Epos.
  - apply bool_decide_eq_true in Hr as [info Ei]. rewrite Ei.
    rewrite (getitem_Some _ _ _ Ei), bind_ret_l.
    fold (raw_note m pat_transpose (byte_val b)).
    unfold clamp_warnings, clamp, PICO8Pattern.set.
    apply Nat.ltb_lt in Hlen. rewrite Hlen.
    destruct (raw_note m pat_transpose (byte_val b) >? 63) eqn:E1.
    + reflexivity.
    + rewrite bind_ret_l.
      destruct (raw_note m pat_transpose (byte_val b) <? 0) eqn:E2; reflexivity.
  - destruct (pattern !! (r * 2 + 1)%nat); by destruct p.
Qed.

(** The rows after the loop of line 152 ran over rows [0 .. n-1]. *)
Lemma convert_rows_spec sp n :
  (n <= 32)%nat ->
  forallb (row_readable pattern) (seq 0 n) = true ->
  for_each (convert_row m pat_num pat_transpose pattern) (seq 0 n)
    (PICO8Pattern.init sp)
  = (flat_map (row_warnings m pat_num pat_transpose pattern) (seq 0 n),
     Ok (PICO8Pattern.mk
           (map (converted_row m pat_transpose pattern) (seq 0 n)
            ++ replicate (32 - n) None)
           sp)).
Proof.
  induction n as [|n IH]; intros Hn Hread; [reflexivity|].
  rewrite seq_S in *. cbn [Nat.add] in *.
  rewrite forallb_app in Hread. apply andb_true_iff in Hread as [Hread Hrn].
  cbn [forallb] in Hrn. rewrite andb_true_r in Hrn.
  rewrite for_each_app, IH by (done || lia). unfold bind at 1. cbn [for_each].
  rewrite convert_row_spec;
    [|done|cbn [PICO8Pattern.rows];
           rewrite length_app, length_map, length_seq, length_replicate; lia].
  unfold bind, ret. cbn [PICO8Pattern.rows PICO8Pattern.speed].
  rewrite flat_map_app, map_app. cbn [flat_map map].
  rewrite !app_nil_r. f_equal. f_equal. f_equal.
  replace (32 - n)%nat with (S (32 - S n)) by lia. cbn [replicate].
  destruct (converted_row m pat_transpose pattern n) as [row|].
  - rewrite insert_app_r_alt by (rewrite length_map, length_seq; lia).
    rewrite length_map, length_seq, Nat.sub_diag. cbn [insert list_insert].
    by rewrite <- app_assoc.
  - by rewrite <- app_assoc.
Qed.

Lemma convert_rows_readable l p o p' :
  for_each (convert_row m pat_num pat_transpose pattern) l p = (o, Ok p') ->
  forallb (row_readable pattern) l = true.
Proof.
  revert p o. induction l as [|r l IH]; intros p o H; cbn [for_each forallb] in *;
    [done|].
  apply bind_Ok_inv in H as (o1 & p1 & o2 & H1 & H2 & ->).
  apply andb_true_iff. split; [eapply convert_row_readable, H1|eapply IH, H2].
Qed.

End Rows.

(** The components of a key, as [convert_patterns] extracts them. *)
Definition pat_num_of (key : Z) : Z := Z.land key 255.

Definition pat_transpose_of (key : Z) : Z :=
  let t := Z.land (Z.shiftr key 8) 255 in
  if t >=? 128 then t - 256 else t.

(** Where the block of a key starts, and its bytes. *)
Definition block_offset (m : FutureComposerModule.t) (key : Z) : Z :=
  pattern_offset m + pat_num_of key * 64.

Definition block_of (m : FutureComposerModule.t) (key : Z) : list byte :=
  slice (contents m) (Z.to_nat (block_offset m key))
    (Z.to_nat (block_offset m key + 64)).

(** The bytes that the conversion of the used patterns reads are there. *)
Definition block_readable (m : FutureComposerModule.t) (key : Z) : bool :=
  forallb (row_readable (block_of m key)) (seq 0 32).

Definition blocks_readable (m : FutureComposerModule.t) : bool :=
  forallb (block_readable m) (used_patterns m).

(** The pattern of a key, and the lines printed while converting it. *)
Definition converted (m : FutureComposerModule.t) (key : Z) : PICO8Pattern.t :=
  PICO8Pattern.mk
    (map (converted_row m (pat_transpose_of key) (block_of m key)) (seq 0 32))
    (Args.speed (args m)).

Definition pattern_warnings (m : FutureComposerModule.t) (key : Z)
    : list string :=
  flat_map (row_warnings m (pat_num_of key) (pat_transpose_of key) (block_of m key))
    (seq 0 32).

Lemma convert_pattern_spec m key :
  block_readable m key = true ->
  convert_pattern m key = (pattern_warnings m key, Ok (converted m key)).
Proof.
  intros H. unfold convert_pattern.
  rewrite (convert_rows_spec m _ _ _ _ 32) by (done || lia).
  unfold pattern_warnings, converted. cbn [Nat.sub replicate].
  by rewrite app_nil_r.
Qed.

Lemma convert_pattern_readable m key o p :
  convert_pattern m key = (o, Ok p) -> block_readable m key = true.
Proof. unfold convert_pattern. apply convert_rows_readable. Qed.

Lemma convert_patterns_mapM m :
  convert_patterns m
  = (ps <- mapM (convert_pattern m) (used_patterns m) ;; ret ps).
Proof. unfold convert_patterns. by rewrite for_each_append. Qed.

Lemma mapM_convert_pattern_spec m keys :
  forallb (block_readable m) keys = true ->
  mapM (convert_pattern m) keys
  = (flat_map (pattern_warnings m) keys, Ok (map (converted m) keys)).
Proof.
  induction keys as [|key keys IH]; intros H; cbn [mapM flat_map map forallb] in *;
    [done|].
  apply andb_true_iff in H as [Hk H].
  rewrite (convert_pattern_spec _ _ Hk), (IH H). unfold bind, ret. simpl.
  by rewrite !app_nil_r.
Qed.

Lemma mapM_convert_pattern_readable m keys o ps :
  mapM (convert_pattern m) keys = (o, Ok ps) ->
  forallb (block_readable m) keys = true.
Proof.
  revert o ps. induction keys as [|key keys IH]; intros o ps H;
    cbn [mapM forallb] in *; [done|].
  apply bind_Ok_inv in H as (o1 & p & o2 & Hp & H & ->).
  apply bind_Ok_inv in H as (o3 & ps' & o4 & Hps & H & ->).
  apply andb_true_iff. split; [eapply convert_pattern_readable, Hp|eapply IH, Hps].
Qed.

(** With the blocks of the used patterns readable, [convert_patterns]
    returns one pattern per used pattern, in the order of the set. *)
Lemma convert_patterns_spec m :
  blocks_readable m = true ->
  convert_patterns m
  = (flat_map (pattern_warnings m) (used_patterns m),
     Ok (map (converted m) (used_patterns m))).
Proof.
  intros H. rewrite convert_patterns_mapM, mapM_convert_pattern_spec by done.
  unfold bind, ret. by rewrite app_nil_r.
Qed.

(** It returns in that case only. *)
Lemma convert_patterns_readable m o ps :
  convert_patterns m = (o, Ok ps) -> blocks_readable m = true.
Proof.
  rewrite convert_patterns_mapM. intros H.
  apply bind_Ok_inv in H as (o1 & ps' & o2 & H & _ & _).
  eapply mapM_convert_pattern_readable, H.
Qed.

Lemma convert_patterns_Ok_inv m o ps :
  convert_patterns m = (o, Ok ps) ->
  blocks_readable m = true
  /\ o = flat_map (pattern_warnings m) (used_patterns m)
  /\ ps = map (converted m) (used_patterns m).
Proof.
  intros H. pose proof (convert_patterns_readable _ _ _ H) as Hr.
  rewrite (convert_patterns_spec _ Hr) in H. by injection H as <- <-.
Qed.

(** A block that lies inside the buffer is readable. *)
Lemma block_in_range_readable m key :
  (Z.to_nat (block_offset m key) + 64 <= length (contents m))%nat ->
  0 <= block_offset m key ->
  block_readable m key = true.
Proof.
  intros Hlen Hpos. unfold block_readable. apply forallb_forall.
  intros r Hr. apply in_seq in Hr.
  assert (length (block_of m key) = 64%nat) as Hb.
  { unfold block_of, slice. rewrite length_take, length_drop. lia. }
  unfold row_readable.
  destruct (lookup_lt_is_Some_2 (block_of m key) (r * 2)%nat) as [b ->]; [lia|].
  destruct (byte_val b >? 0); [|done].
  apply bool_decide_eq_true, lookup_lt_is_Some_2. lia.
Qed.

(** ** The whole run *)

Lemma for_each_print {A} (f : A -> string) l :
  for_each (fun _ x => print (f x)) l tt = (map f l, Ok tt).
Proof.
  induction l as [|x l IH]; cbn [for_each map]; [done|].
  unfold bind at 1, print at 1. by rewrite IH.
Qed.

(** The line of a sequence, from the slots of its voices. *)
Definition sequence_line (used : list Z) (sq : Sequence.t) : string :=
  fold_left (fun acc code => acc +:+ code)
    (imap (fun c v => slot_code c (slot_of used v)) (Sequence.voices sq)) "00 ".

Lemma sequence_line_format used sq :
  length (Sequence.voices sq) = 4%nat ->
  PICO8Sequence.format
    (PICO8Sequence.mk (map (slot_of used) (Sequence.voices sq)))
  = ret (sequence_line used sq).
Proof.
  intros Hlen. unfold sequence_line.
  destruct (Sequence.voices sq) as [|v0 [|v1 [|v2 [|v3 [|]]]]]; try done.
  rewrite (sequence_format_spec _ (slot_of used v0) (slot_of used v1)
             (slot_of used v2) (slot_of used v3)) by done.
  cbn [imap fold_left]. f_equal. by rewrite !string_app_assoc.
Qed.

(** What [main] prints for a module that can be converted. *)
Definition printed (m : FutureComposerModule.t) (init_out : list string)
    : list string :=
  init_out
  ++ flat_map (pattern_warnings m) (used_patterns m)
  ++ header
  ++ ["__sfx__"]
  ++ map (fun key => PICO8Pattern.format (converted m key)) (used_patterns m)
  ++ ["__music__"]
  ++ map (sequence_line (used_patterns m)) (sequences m).

Lemma main_spec args buf out m :
  init args buf = (out, Ok m) ->
  blocks_readable m = true ->
  main args buf = (printed m out, Ok tt).
Proof.
  intros H Hr. pose proof (init_decoded _ _ _ _ H) as D. unfold main.
  rewrite (bind_Ok _ _ _ _ H).
  rewrite (convert_sequences_spec _ _ _ _ D), bind_ret_l.
  rewrite (bind_Ok _ _ _ _ (convert_patterns_spec _ Hr)).
  cbn [fst snd]. unfold PICO8Song.output.
  cbn [PICO8Song.patterns PICO8Song.sequences].
  rewrite (for_each_print (fun line => line)), map_id.
  rewrite (for_each_print PICO8Pattern.format).
  assert (for_each
            (fun (_ : unit) s => line <- PICO8Sequence.format s ;; print line)
            (map (fun sq => PICO8Sequence.mk
                    (map (slot_of (used_patterns m)) (Sequence.voices sq)))
               (sequences m)) tt
          = (map (sequence_line (used_patterns m)) (sequences m), Ok tt)) as ->.
  { assert (forall sq, sq ∈ sequences m -> length (Sequence.voices sq) = 4%nat)
      as Hlen.
    { intros sq Hsq.
      destruct (decoded_shapes _ _ _ _ _ D Hsq) as (? & ? & ? & ? & -> & _).
      done. }
    induction (sequences m) as [|sq sqs IH]; cbn [for_each map]; [done|].
    rewrite sequence_line_format by (apply Hlen; left).
    rewrite bind_ret_l. unfold bind at 1, print at 1.
    rewrite IH by (intros; apply Hlen; by right). done. }
  unfold printed, bind, print. cbn [fst snd]. rewrite map_map.
  reflexivity.
Qed.

Lemma main_init_Raise args buf o e :
  init args buf = (o, Raise e) -> main args buf = (o, Raise e).
Proof. intros H. unfold main. by rewrite (bind_Raise _ _ _ _ H). Qed.

(** The run ends normally exactly when the constructor returns and the
    blocks of the used patterns are readable. *)
Lemma main_Ok_inv args buf o u :
  main args buf = (o, Ok u) ->
  exists out m, init args buf = (out, Ok m) /\ blocks_readable m = true.
Proof.
  unfold main. intros H.
  apply bind_Ok_inv in H as (o1 & m & ? & Hi & H & ->).
  apply bind_Ok_inv in H as (o2 & sqs & ? & Hs & H & ->).
  apply bind_Ok_inv in H as (o3 & ps & ? & Hp & H & ->).
  exists o1, m. split; [done|]. eapply convert_patterns_readable, Hp.
Qed.

(** ** Blocks and the buffer *)

Lemma pat_num_of_range key : 0 <= pat_num_of key <= 255.
Proof.
  unfold pat_num_of. assert (Z.land key 255 = key mod 256) as ->.
  { change 255 with (Z.ones 8). by rewrite Z.land_ones by lia. }
  pose proof (Z.mod_pos_bound key 256). lia.
Qed.

Lemma block_offset_nonneg args buf out m key :
  decoded args buf out m -> 0 <= block_offset m key.
Proof.
  intros D. unfold block_offset. rewrite (dec_pattern_offset _ _ _ _ D).
  pose proof (from_bytes_big_nonneg (slice buf 8 (8 + 4))).
  pose proof (pat_num_of_range key). unfold field. lia.
Qed.

(** Byte [j] of the block of a key is byte [block_offset + j] of the file. *)
Lemma block_lookup m key j :
  0 <= block_offset m key -> (j < 64)%nat ->
  block_of m key !! j = contents m !! (Z.to_nat (block_offset m key) + j)%nat.
Proof.
  intros Hpos Hj. unfold block_of, slice.
  rewrite lookup_take_lt by lia. by rewrite lookup_drop.
Qed.

Lemma converted_rows_length m key :
  length (PICO8Pattern.rows (converted m key)) = 32%nat.
Proof.
  unfold converted. cbn [PICO8Pattern.rows]. by rewrite length_map, length_seq.
Qed.

Lemma converted_row_lookup m key r :
  (r < 32)%nat ->
  PICO8Pattern.rows (converted m key) !! r
  = Some (converted_row m (pat_transpose_of key) (block_of m key) r).
Proof.
  intros Hr. unfold converted. cbn [PICO8Pattern.rows].
  change (map ?f ?l) with (f <$> l). rewrite list_lookup_fmap.
  rewrite lookup_seq_lt by done. done.
Qed.

Lemma elem_of_flat_map {A B} (f : A -> list B) l y :
  y ∈ flat_map f l <-> exists x, x ∈ l /\ y ∈ f x.
Proof.
  rewrite list_elem_of_In, in_flat_map. split; intros (x & H1 & H2); exists x.
  - by rewrite !list_elem_of_In.
  - by rewrite <- !list_elem_of_In.
Qed.


Lemma blocks_readable_key m key :
  blocks_readable m = true -> key ∈ used_patterns m ->
  block_readable m key = true.
Proof.
  unfold blocks_readable. rewrite forallb_forall. intros H Hk.
  by apply H, list_elem_of_In.
Qed.



(** ** Lines *)

(** The strings of a list, one after the other. *)
Definition concat_strings (l : list string) : string :=
  fold_right String.append "" l.

Lemma string_app_nil_r (s : string) : s +:+ "" = s.
Proof. induction s as [|c s IH]; [done|]. by rewrite string_app_cons, IH. Qed.

Lemma fold_left_append {A} (f : A -> string) l init :
  fold_left (fun acc x => acc +:+ f x) l init
  = init +:+ concat_strings (map f l).
Proof.
  revert init. induction l as [|x l IH]; intros init; cbn [fold_left map].
  - unfold concat_strings. cbn [fold_right]. by rewrite string_app_nil_r.
  - rewrite IH. unfold concat_strings. cbn [fold_right].
    by rewrite string_app_assoc.
Qed.

Lemma length_concat_strings l n :
  (forall s, s ∈ l -> String.length s = n) ->
  String.length (concat_strings l) = (n * length l)%nat.
Proof.
  induction l as [|s l IH]; intros H; unfold concat_strings; cbn [fold_right length].
  - simpl. lia.
  - rewrite string_length_app. fold (concat_strings l).
    rewrite IH by (intros; apply H; by right). rewrite (H s) by left. lia.
Qed.

Lemma pattern_format_spec p :
  PICO8Pattern.format p
  = "01" +:+ fmt_02x (PICO8Pattern.speed p) +:+ "0000"
    +:+ concat_strings (map PICO8Pattern.row_code (PICO8Pattern.rows p)).
Proof.
  unfold PICO8Pattern.format. rewrite fold_left_append.
  by rewrite !string_app_assoc.
Qed.

Lemma land_7_range x : 0 <= Z.land x 7 <= 7.
Proof.
  assert (Z.land x 7 = x mod 8) as ->.
  { change 7 with (Z.ones 3). by rewrite Z.land_ones by lia. }
  pose proof (Z.mod_pos_bound x 8). lia.
Qed.

Lemma clamp_range note : 0 <= clamp note <= 63.
Proof. rewrite clamp_max_min. lia. Qed.

(** A stored row, read back. *)
Lemma converted_row_Some m pt pattern r row :
  converted_row m pt pattern r = Some row ->
  exists b info,
    pattern !! (r * 2)%nat = Some b /\ 0 < byte_val b
    /\ pattern !! (r * 2 + 1)%nat = Some info
    /\ row = PICO8Pattern.mkRow (Some (clamp (raw_note m pt (byte_val b))))
               (Z.land (byte_val info) 7) 4 0.
Proof.
  unfold converted_row.
  destruct (pattern !! (r * 2)%nat) as [b|]; [|done].
  destruct (pattern !! (r * 2 + 1)%nat) as [info|]; [|done].
  destruct (byte_val b >? 0) eqn:E; [|done]. intros [= <-].
  exists b, info. repeat split; try done. lia.
Qed.

Lemma row_code_populated n ins :
  0 <= n <= 63 -> 0 <= ins <= 7 ->
  PICO8Pattern.row_code (Some (PICO8Pattern.mkRow (Some n) ins 4 0))
  = fmt_02x n +:+ fmt_d ins +:+ "4" +:+ "0"
  /\ String.length
       (PICO8Pattern.row_code (Some (PICO8Pattern.mkRow (Some n) ins 4 0)))
     = 5%nat.
Proof.
  intros Hn Hi. split; [reflexivity|].
  unfold PICO8Pattern.row_code, PICO8Pattern.Row_format.
  cbn [PICO8Pattern.note PICO8Pattern.instrument PICO8Pattern.volume
       PICO8Pattern.effect].
  rewrite !string_length_app, fmt_02x_length, fmt_d_length_digit by lia.
  reflexivity.
Qed.

(** C7, amended: the line of a converted pattern is ["01"], the speed in
    [%02x], ["0000"], then the codes of its 32 rows; each code has five
    characters, ["00000"] for an empty row and [%02x%d%d%d] of note,
    instrument, volume and effect for a populated one, whose note is in
    0..63, whose instrument is the info byte [& 7], in 0..7, whose volume
    is 4 and whose effect is 0.  When the speed is in 0..255 the prefix has
    eight characters and the line 168. *)
Theorem pattern_lines (args : Args.t) (buf : list byte) (out o : list string)
    (m : FutureComposerModule.t) (pats : list PICO8Pattern.t) :
  init args buf = (out, Ok m) ->
  convert_patterns m = (o, Ok pats) ->
  length pats = length (used_patterns m)
  /\ forall i p, pats !! i = Some p ->
       exists key,
         used_patterns m !! i = Some key
         /\ length (PICO8Pattern.rows p) = 32%nat
         /\ PICO8Pattern.format p
            = "01" +:+ fmt_02x (Args.speed args) +:+ "0000"
              +:+ concat_strings
                    (map PICO8Pattern.row_code (PICO8Pattern.rows p))
         /\ (0 <= Args.speed args <= 255 ->
             String.length ("01" +:+ fmt_02x (Args.speed args) +:+ "0000")
             = 8%nat
             /\ String.length (PICO8Pattern.format p) = 168%nat)
         /\ forall r row, PICO8Pattern.rows p !! r = Some row ->
              String.length (PICO8Pattern.row_code row) = 5%nat
              /\ ((row = None /\ PICO8Pattern.row_code row = "00000")
                  \/ exists n info,
                       buf !! (Z.to_nat (pattern_offset m + Z.land key 255 * 64)
                               + r * 2 + 1)%nat = Some info
                       /\ row = Some (PICO8Pattern.mkRow (Some n)
                                        (Z.land (byte_val info) 7) 4 0)
                       /\ 0 <= n <= 63
                       /\ 0 <= Z.land (byte_val info) 7 <= 7
                       /\ PICO8Pattern.row_code row
                          = fmt_02x n +:+ fmt_d (Z.land (byte_val info) 7)
                            +:+ "4" +:+ "0").
Proof.
  intros H Hp. pose proof (init_decoded _ _ _ _ H) as D.
  apply convert_patterns_Ok_inv in Hp as (Hr & -> & ->).
  split; [by rewrite length_map|]. intros i p Hi.
  change (map ?f ?l) with (f <$> l) in Hi. rewrite list_lookup_fmap in Hi.
  destruct (used_patterns m !! i) as [key|] eqn:Hkey; [|done].
  injection Hi as <-. exists key. split; [done|].
  split; [apply converted_rows_length|].
  assert (forall r row, PICO8Pattern.rows (converted m key) !! r = Some row ->
    String.length (PICO8Pattern.row_code row) = 5%nat
    /\ ((row = None /\ PICO8Pattern.row_code row = "00000")
        \/ exists n info,
             buf !! (Z.to_nat (pattern_offset m + Z.land key 255 * 64)
                     + r * 2 + 1)%nat = Some info
             /\ row = Some (PICO8Pattern.mkRow (Some n)
                              (Z.land (byte_val info) 7) 4 0)
             /\ 0 <= n <= 63
             /\ 0 <= Z.land (byte_val info) 7 <= 7
             /\ PICO8Pattern.row_code row
                = fmt_02x n +:+ fmt_d (Z.land (byte_val info) 7)
                  +:+ "4" +:+ "0")) as Hrows.
  { intros r row Hrow.
    assert (r < 32)%nat as Hr32.
    { apply lookup_lt_Some in Hrow. by rewrite converted_rows_length in Hrow. }
    rewrite converted_row_lookup in Hrow by done. injection Hrow as <-.
    destruct (converted_row _ _ _ r) as [row|] eqn:E; [|split; [done|by left]].
    apply converted_row_Some in E as (b & info & Hb & Hpos & Hinfo & ->).
    pose proof (clamp_range (raw_note m (pat_transpose_of key) (byte_val b))).
    pose proof (land_7_range (byte_val info)).
    destruct (row_code_populated
                (clamp (raw_note m (pat_transpose_of key) (byte_val b)))
                (Z.land (byte_val info) 7)) as [Hcode Hlen]; [done..|].
    split; [done|]. right. eexists _, info. split; [|done].
    fold (pat_num_of key). fold (block_offset m key).
    rewrite <- (dec_contents _ _ _ _ D), <- Nat.add_assoc.
    rewrite <- block_lookup; [done| |lia].
    eapply block_offset_nonneg, D. }
  assert (PICO8Pattern.format (converted m key)
          = "01" +:+ fmt_02x (Args.speed args) +:+ "0000"
            +:+ concat_strings
                  (map PICO8Pattern.row_code
                     (PICO8Pattern.rows (converted m key)))) as Hfmt.
  { rewrite pattern_format_spec. unfold converted at 1.
    cbn [PICO8Pattern.speed]. by rewrite (dec_args _ _ _ _ D). }
  split; [done|]. split; [|done].
  intros Hspeed. rewrite Hfmt.
  rewrite !string_length_app, fmt_02x_length by done.
  rewrite (length_concat_strings _ 5).
  - rewrite length_map, converted_rows_length. done.
  - intros s Hs. apply list_elem_of_fmap in Hs as (row & -> & Hrow).
    apply list_elem_of_lookup in Hrow as [r Hrow].
    by apply Hrows in Hrow as [? _].
Qed.

(** ** Telling the printed lines apart *)





Lemma pattern_warnings_kind m key line :
  line ∈ pattern_warnings m key ->
  line = warn_above (pat_num_of key) \/ line = warn_below (pat_num_of key).
Proof.
  unfold pattern_warnings. rewrite elem_of_flat_map.
  intros (r & _ & Hl). unfold row_warnings in Hl.
  destruct (block_of m key !! (r * 2)%nat) as [b|]; [|by apply elem_of_nil in Hl].
  destruct (byte_val b >? 0); [|by apply elem_of_nil in Hl].
  unfold clamp_warnings in Hl.
  destruct (_ >? 63); [apply list_elem_of_singleton in Hl; auto|].
  destruct (_ <? 0); [apply list_elem_of_singleton in Hl; auto|].
  by apply elem_of_nil in Hl.
Qed.



(** ** Voices that play pattern 0 *)

Lemma slot_of_Some used w p :
  slot_of used w = Some p ->
  0 < Z.land (Voice.hash w) 255
  /\ exists j, list_index (Voice.hash w) used = Some j /\ p = Z.of_nat j.
Proof.
  unfold slot_of. destruct (Z.land (Voice.hash w) 255 >? 0) eqn:E; [|done].
  destruct (list_index (Voice.hash w) used) as [j|]; [|done].
  intros [= <-]. split; [lia|eauto].
Qed.

(** C10: the key of an in-scope voice whose pattern number is 0 is in
    the set of used patterns, at an index that counts in the length the
    64-pattern test looks at; its pattern is converted from the 64 bytes
    at [pattern_offset] and its line is printed; and no slot of a
    converted sequence holds its index. *)
Theorem zero_pattern_still_converted (args : Args.t) (buf : list byte)
    (out : list string) (m : FutureComposerModule.t)
    (sq : Sequence.t) (v : Voice.t) :
  init args buf = (out, Ok m) ->
  sq ∈ sequences m -> v ∈ Sequence.voices sq -> Voice.pattern v = 0 ->
  exists i,
    list_index (Voice.hash v) (used_patterns m) = Some i
    /\ used_patterns m !! i = Some (Voice.hash v)
    /\ (i < length (used_patterns m))%nat
    /\ out = (if (64 <? length (used_patterns m))%nat
              then [overflow_warning] else [])
    /\ block_of m (Voice.hash v)
       = slice buf (Z.to_nat (pattern_offset m))
           (Z.to_nat (pattern_offset m + 64))
    /\ (blocks_readable m = true ->
        exists pats,
          convert_patterns m
          = (flat_map (pattern_warnings m) (used_patterns m), Ok pats)
          /\ pats !! i = Some (converted m (Voice.hash v))
          /\ main args buf = (printed m out, Ok tt)
          /\ PICO8Pattern.format (converted m (Voice.hash v))
             ∈ map PICO8Pattern.format pats
          /\ PICO8Pattern.format (converted m (Voice.hash v))
             ∈ (main args buf).1)
    /\ exists cseqs,
         convert_sequences m = ([], Ok cseqs)
         /\ forall cs c, cs ∈ cseqs ->
              PICO8Sequence.channels cs !! c <> Some (Some (Z.of_nat i)).
Proof.
  intros H Hsq Hv Hzero. pose proof (init_decoded _ _ _ _ H) as D.
  pose proof (decoded_key_used _ _ _ _ _ _ D Hsq Hv) as Hused.
  pose proof (shape_voice_bytes _ _ (decoded_shapes _ _ _ _ _ D Hsq) Hv) as Bv.
  destruct (list_index_elem_of _ _ Hused) as [i Hi].
  pose proof (list_index_Some _ _ _ Hi) as [Hlook _].
  exists i. split; [done|]. split; [done|].
  split; [by apply lookup_lt_Some in Hlook|].
  split; [apply (dec_out _ _ _ _ D)|].
  assert (pat_num_of (Voice.hash v) = 0) as Hpn.
  { unfold pat_num_of. by rewrite hash_pat_num. }
  split.
  { unfold block_of, block_offset. rewrite Hpn, (dec_contents _ _ _ _ D).
    by rewrite Z.mul_0_l, Z.add_0_r. }
  split.
  - intros Hr. exists (map (converted m) (used_patterns m)).
    split; [by apply convert_patterns_spec|].
    assert (map (converted m) (used_patterns m) !! i
            = Some (converted m (Voice.hash v))) as Hp.
    { change (map ?f ?l) with (f <$> l). by rewrite list_lookup_fmap, Hlook. }
    split; [done|]. split; [by apply main_spec|].
    assert (PICO8Pattern.format (converted m (Voice.hash v))
            ∈ map (fun key => PICO8Pattern.format (converted m key))
                (used_patterns m)) as Hline.
    { apply list_elem_of_fmap. eauto. }
    split; [by rewrite map_map|].
    rewrite (main_spec _ _ _ _ H Hr). cbn [fst]. unfold printed.
    rewrite !elem_of_app. tauto.
  - eexists. split; [apply (convert_sequences_spec _ _ _ _ D)|].
    intros cs c Hcs Hc.
    apply list_elem_of_fmap in Hcs as (sq' & -> & Hsq').
    cbn [PICO8Sequence.channels] in Hc.
    change (map ?f ?l) with (f <$> l) in Hc. rewrite list_lookup_fmap in Hc.
    destruct (Sequence.voices sq' !! c) as [w|] eqn:Hw; [|done].
    injection Hc as Hc. apply slot_of_Some in Hc as (Hpos & j & Hj & Hij).
    apply Nat2Z.inj in Hij. subst j.
    apply list_index_Some in Hj as [Hj _]. rewrite Hlook in Hj.
    injection Hj as Hj. rewrite <- Hj, hash_pat_num in Hpos by done. lia.
Qed.

(** ** Voices with equal triples *)

(** C1, amended: two in-scope voices with equal (pattern number, note
    transpose, instrument transpose) have equal keys; when the pattern
    number is not 0 their slots hold the same index, the index of the key
    in the set of used patterns, at which [convert_patterns] puts the
    pattern converted from that key; when it is 0 neither slot holds an
    index. *)
Theorem equal_triples_share_index (args : Args.t) (buf : list byte)
    (out : list string) (m : FutureComposerModule.t) :
  init args buf = (out, Ok m) ->
  exists cseqs,
    convert_sequences m = ([], Ok cseqs)
    /\ forall s1 sq1 c1 v1 s2 sq2 c2 v2,
         sequences m !! s1 = Some sq1 -> Sequence.voices sq1 !! c1 = Some v1 ->
         sequences m !! s2 = Some sq2 -> Sequence.voices sq2 !! c2 = Some v2 ->
         Voice.pattern v1 = Voice.pattern v2 ->
         Voice.transpose v1 = Voice.transpose v2 ->
         Voice.sound_transpose v1 = Voice.sound_transpose v2 ->
         exists cs1 cs2,
           cseqs !! s1 = Some cs1 /\ cseqs !! s2 = Some cs2
           /\ Voice.hash v1 = Voice.hash v2
           /\ (Voice.pattern v1 <> 0 ->
               exists i,
                 PICO8Sequence.channels cs1 !! c1 = Some (Some (Z.of_nat i))
                 /\ PICO8Sequence.channels cs2 !! c2 = Some (Some (Z.of_nat i))
                 /\ used_patterns m !! i = Some (Voice.hash v1)
                 /\ forall o pats, convert_patterns m = (o, Ok pats) ->
                      pats !! i = Some (converted m (Voice.hash v1))
                      /\ convert_pattern m (Voice.hash v1)
                         = (pattern_warnings m (Voice.hash v1),
                            Ok (converted m (Voice.hash v1))))
           /\ (Voice.pattern v1 = 0 ->
               PICO8Sequence.channels cs1 !! c1 = Some None
               /\ PICO8Sequence.channels cs2 !! c2 = Some None).
Proof.
  intros H. pose proof (init_decoded _ _ _ _ H) as D.
  eexists. split; [apply (convert_sequences_spec _ _ _ _ D)|].
  intros s1 sq1 c1 v1 s2 sq2 c2 v2 Hs1 Hc1 Hs2 Hc2 Hp Ht Hst.
  set (used := used_patterns m).
  assert (sq1 ∈ sequences m) as Hin1 by (eapply list_elem_of_lookup_2, Hs1).
  assert (sq2 ∈ sequences m) as Hin2 by (eapply list_elem_of_lookup_2, Hs2).
  assert (v1 ∈ Sequence.voices sq1) as Hv1 by (eapply list_elem_of_lookup_2, Hc1).
  assert (v2 ∈ Sequence.voices sq2) as Hv2 by (eapply list_elem_of_lookup_2, Hc2).
  pose proof (shape_voice_bytes _ _ (decoded_shapes _ _ _ _ _ D Hin1) Hv1) as B1.
  pose proof (shape_voice_bytes _ _ (decoded_shapes _ _ _ _ _ D Hin2) Hv2) as B2.
  pose proof (decoded_key_used _ _ _ _ _ _ D Hin1 Hv1) as U1.
  assert (Voice.hash v1 = Voice.hash v2) as Hhash by (by apply hash_inj).
  exists (PICO8Sequence.mk (map (slot_of used) (Sequence.voices sq1))),
    (PICO8Sequence.mk (map (slot_of used) (Sequence.voices sq2))).
  split; [by rewrite list_lookup_fmap, Hs1|].
  split; [by rewrite list_lookup_fmap, Hs2|].
  split; [done|]. cbn [PICO8Sequence.channels].
  change (map ?f ?l) with (f <$> l). rewrite !list_lookup_fmap, Hc1, Hc2.
  cbn [fmap option_fmap option_map].
  assert (slot_of used v2 = slot_of used v1) as ->.
  { unfold slot_of. by rewrite Hhash. }
  destruct (slot_of_cases used v1 B1 U1) as [[Hz Hs]|[Hnz (i & Hi & Hl & Hs)]];
    rewrite Hs.
  - split; [done|]. done.
  - split; [|done]. intros _. exists i. repeat (split; [done|]).
    intros o pats Hpats. subst used.
    apply convert_patterns_Ok_inv in Hpats as (Hr & -> & ->).
    split.
    + change (map ?f ?l) with (f <$> l). by rewrite list_lookup_fmap, Hl.
    + apply convert_pattern_spec, blocks_readable_key; done.
Qed.

(** ** An unknown tag *)

(** With four bytes that are neither tag, the run ends in the
    constructor, before anything is printed, with the [NameError] raised
    while the message for [sys.exit] is built. *)
Lemma unknown_magic_raises args buf :
  (4 <= length buf)%nat -> take 4 buf <> SMOD -> take 4 buf <> FC14 ->
  main args buf = ([], Raise (NameError "magic")).
Proof.
  intros Hlen H1 H2. apply main_init_Raise. unfold init.
  assert (slice buf 0 4 = take 4 buf) as -> by reflexivity.
  assert (struct_unpack_4s (take 4 buf) = ret (take 4 buf)) as ->.
  { unfold struct_unpack_4s. rewrite length_take.
    by replace (4 `min` length buf)%nat with 4%nat by lia. }
  rewrite bind_ret_l. unfold check_magic.
  rewrite !bool_decide_eq_true_2 by done. reflexivity.
Qed.

(** C3, on the file [Samples.unknown_tag], whose tag is "XXXX": the run
    prints nothing and ends with status 1, but through a [NameError] on
    the name [magic]; the line written on standard error does not name
    the tag. *)
Theorem unknown_tag_ends_in_NameError :
  main Args.default Samples.unknown_tag = ([], Raise (NameError "magic"))
  /\ exit_status (main Args.default Samples.unknown_tag).2 = 1
  /\ stderr_line (NameError "magic") = "NameError: name 'magic' is not defined"
  /\ String.index 0 "XXXX" (stderr_line (NameError "magic")) = None.
Proof.
  assert (main Args.default Samples.unknown_tag
          = ([], Raise (NameError "magic"))) as H.
  { apply unknown_magic_raises; [vm_compute; lia|vm_compute; discriminate..]. }
  rewrite H. repeat split.
Qed.

(** ** Examples *)

(** Names the module a sample file decodes to, with the equation that
    says so. *)
Ltac sample_module args buf m H :=
  match eval vm_compute in (init args buf) with
  | (?o, Ok ?m') =>
      pose (m := m');
      assert (init args buf = (o, Ok m)) as H
        by (vm_compute; reflexivity)
  end.


(** C1, amended, on [Samples.song]: channel 0 of the first sequence and
    channel 2 of the second play (1, 0, 0); both slots hold index 0. *)
Lemma equal_triples_share_index_song :
  exists out m cseqs cs1 cs2,
    init Args.default Samples.song = (out, Ok m)
    /\ convert_sequences m = ([], Ok cseqs)
    /\ cseqs !! 0%nat = Some cs1 /\ cseqs !! 1%nat = Some cs2
    /\ PICO8Sequence.channels cs1 !! 0%nat = Some (Some 0)
    /\ PICO8Sequence.channels cs2 !! 2%nat = Some (Some 0)
    /\ used_patterns m !! 0%nat = Some 1.
Proof.
  sample_module Args.default Samples.song m H.
  destruct (equal_triples_share_index _ _ _ _ H) as (cseqs & Hc & Hall).
  edestruct (fun sq1 v1 sq2 v2 => Hall 0%nat sq1 0%nat v1 1%nat sq2 2%nat v2)
    as (cs1 & cs2 & H1 & H2 & _ & Hnz & _); [reflexivity..|].
  destruct Hnz as (i & Hi1 & Hi2 & Hu & _); [vm_compute; discriminate|].
  assert (i = 0%nat) as ->.
  { destruct i as [|[|[|i]]]; [done|vm_compute in Hu; discriminate..]. }
  exists [], m, cseqs, cs1, cs2. repeat split; assumption.
Defined.

(** C1 as stated fails on [Samples.silent_pair]: channels 0 and 1 of its
    sequence both play (0, 0, 0), neither slot holds an index, and the two
    channel codes differ. *)
Lemma zero_pattern_voices_get_no_index :
  exists out m cs,
    init Args.default Samples.silent_pair = (out, Ok m)
    /\ map Sequence.voices (sequences m)
       = [[Voice.mk 0 0 0 0; Voice.mk 1 0 0 0; Voice.mk 2 1 0 0; Voice.mk 3 1 0 0]]
    /\ convert_sequences m = ([], Ok [cs])
    /\ cs = PICO8Sequence.mk [None; None; Some 1; Some 1]
    /\ ~ (exists i, PICO8Sequence.channels cs !! 0%nat = Some (Some i)
                   /\ PICO8Sequence.channels cs !! 1%nat = Some (Some i))
    /\ PICO8Sequence.format cs = ([], Ok "00 41420101")
    /\ last (main Args.default Samples.silent_pair).1 = Some "00 41420101".
Proof.
  sample_module Args.default Samples.silent_pair m H.
  exists [], m, (PICO8Sequence.mk [None; None; Some 1; Some 1]).
  split; [exact H|]. split; [reflexivity|]. split; [vm_compute; reflexivity|].
  split; [reflexivity|]. split; [|split; vm_compute; reflexivity].
  intros (i & Hi & _). discriminate Hi.
Qed.

(** C4 on [Samples.song]: the key 62465 is first met at voice 3, after
    the two distinct keys 1 and 0, and has index 2. *)
Lemma used_patterns_first_seen_song :
  exists out m,
    init Args.default Samples.song = (out, Ok m)
    /\ voice_keys (sequences m) = [1; 1; 0; 62465; 1; 0; 1; 1]
    /\ used_patterns m = [1; 0; 62465]
    /\ list_index 62465 (used_patterns m) = Some 2%nat.
Proof.
  sample_module Args.default Samples.song m H.
  destruct (used_patterns_first_seen _ _ _ _ H) as (_ & _ & _ & Hidx).
  destruct (Hidx 3%nat 62465) as (_ & _ & Hfresh); [reflexivity|].
  destruct Hfresh as [Hi _].
  { vm_compute. intros Hin.
    repeat (apply elem_of_cons in Hin as [Hin|Hin]; [discriminate Hin|]).
    by apply elem_of_nil in Hin. }
  exists [], m. split; [exact H|]. split; [reflexivity|]. split; [reflexivity|].
  exact Hi.
Defined.

(** C5, amended, on [Samples.song]: the line of the first sequence. *)
Lemma channel_codes_song :
  exists out m cseqs cs,
    init Args.default Samples.song = (out, Ok m)
    /\ convert_sequences m = ([], Ok cseqs)
    /\ cseqs !! 0%nat = Some cs
    /\ PICO8Sequence.format cs = ([], Ok "00 00004302").
Proof.
  sample_module Args.default Samples.song m H.
  destruct (channel_codes _ _ _ _ H) as (cseqs & Hc & _ & Hall).
  edestruct (fun sq => Hall 0%nat sq)
    as (cs & c0 & c1 & c2 & c3 & Hcs & Hfmt & _); [reflexivity|].
  exists [], m, cseqs, cs. split; [exact H|]. split; [exact Hc|].
  split; [exact Hcs|].
  vm_compute in Hc. injection Hc as <-. vm_compute in Hcs. injection Hcs as <-.
  vm_compute. reflexivity.
Defined.

(** C5 as stated fails on [Samples.many_keys 257 65]: the voices of the
    last sequence have the key of index 256, and their code has three
    hexadecimal digits. *)
Lemma index_256_has_three_digits :
  exists out m cseqs cs,
    init Args.default (Samples.many_keys 257 65) = (out, Ok m)
    /\ used_patterns m !! 256%nat = Some 263
    /\ voice_keys (drop 64 (sequences m)) = [263; 263; 263; 263]
    /\ convert_sequences m = ([], Ok cseqs)
    /\ cseqs !! 64%nat = Some cs
    /\ PICO8Sequence.channels cs !! 0%nat = Some (Some 256)
    /\ PICO8Sequence.channel_code cs 0 = ([], Ok "100")
    /\ String.length "100" = 3%nat
    /\ PICO8Sequence.format cs = ([], Ok "00 100100100100")
    /\ last (main Args.default (Samples.many_keys 257 65)).1
       = Some "00 100100100100".
Proof.
  sample_module Args.default (Samples.many_keys 257 65) m H.
  match eval vm_compute in (convert_sequences m) with
  | (_, Ok ?l) =>
      match eval vm_compute in (l !! 64%nat) with
      | Some ?cs => exists [overflow_warning], m, l, cs
      end
  end.
  split; [exact H|]. repeat split; vm_compute; reflexivity.
Qed.

(** C6 on [Samples.song] with [--start 1 --end 1]: of its two records
    only the second is decoded. *)
Lemma sequences_decoded_in_window_song :
  exists out m,
    init (Args.mk 1 1 10 0) Samples.song = (out, Ok m)
    /\ sequence_data_size m / 13 = 2
    /\ window (Args.mk 1 1 10 0) (sequence_data_size m / 13) = [1%nat]
    /\ length (sequences m) = 1%nat.
Proof.
  destruct (sequences_decoded_in_window (Args.mk 1 1 10 0) Samples.song)
    as [Hdec Hret].
  destruct Hret as (out & m & H); [by left|reflexivity|].
  destruct (Hdec out m H) as (Hsize & HF & _ & _).
  exists out, m. split; [exact H|].
  rewrite Hsize in *. split; [reflexivity|]. split; [reflexivity|].
  apply Forall2_length in HF. rewrite <- HF. reflexivity.
Defined.

(** C7, amended, on [Samples.song]: the line of its first pattern. *)
Lemma pattern_lines_song :
  exists out m o pats p,
    init Args.default Samples.song = (out, Ok m)
    /\ convert_patterns m = (o, Ok pats)
    /\ pats !! 0%nat = Some p
    /\ String.length (PICO8Pattern.format p) = 168%nat
    /\ PICO8Pattern.format p
       = "010a0000" +:+ "19140" +:+ "00000" +:+ "3f340"
         +:+ concat_strings (replicate 29 "00000").
Proof.
  sample_module Args.default Samples.song m H.
  match eval vm_compute in (convert_patterns m) with
  | (?o, Ok ?pats) =>
      assert (convert_patterns m = (o, Ok pats)) as Hc
        by (vm_compute; reflexivity);
      destruct (pattern_lines _ _ _ _ _ _ H Hc) as [_ Hall];
      match eval vm_compute in (pats !! 0%nat) with
      | Some ?p =>
          destruct (Hall 0%nat p) as (key & _ & _ & _ & Hlen & _);
            [reflexivity|];
          exists [], m, o, pats, p
      end
  end.
  split; [exact H|]. split; [exact Hc|]. split; [reflexivity|].
  split; [apply Hlen; vm_compute; split; discriminate|].
  vm_compute. reflexivity.
Defined.

(** C7 as stated fails on [Samples.one_pattern] with [--speed 256]: the
    speed takes three hexadecimal digits, the prefix nine characters and
    the line 169. *)
Lemma speed_256_has_three_digits :
  exists out m o p,
    init (Args.mk 0 (-1) 256 0) Samples.one_pattern = (out, Ok m)
    /\ convert_patterns m = (o, Ok [p])
    /\ PICO8Pattern.format p
       = "011000000" +:+ "3c240" +:+ concat_strings (replicate 31 "00000")
    /\ "01" +:+ fmt_02x (Args.speed (Args.mk 0 (-1) 256 0)) +:+ "0000"
       = "011000000"
    /\ String.length "011000000" = 9%nat
    /\ String.length (PICO8Pattern.format p) = 169%nat
    /\ (main (Args.mk 0 (-1) 256 0) Samples.one_pattern).1 !! 10%nat
       = Some (PICO8Pattern.format p)
    /\ (main (Args.mk 0 (-1) 256 0) Samples.one_pattern).2 = Ok tt.
Proof.
  sample_module (Args.mk 0 (-1) 256 0) Samples.one_pattern m H.
  match eval vm_compute in (convert_patterns m) with
  | (?o, Ok [?p]) => exists [], m, o, p
  end.
  split; [exact H|]. repeat split; vm_compute; reflexivity.
Qed.

(** C10 on [Samples.silent_pair]: channel 0 plays pattern 0; its key 0
    has index 0 in the set, its pattern line is printed, and no slot
    holds index 0. *)
Lemma zero_pattern_still_converted_silent_pair :
  exists out m cseqs,
    init Args.default Samples.silent_pair = (out, Ok m)
    /\ used_patterns m = [0; 1]
    /\ PICO8Pattern.format (converted m 0)
       = "010a0000" +:+ "3c140" +:+ concat_strings (replicate 31 "00000")
    /\ PICO8Pattern.format (converted m 0)
       ∈ (main Args.default Samples.silent_pair).1
    /\ convert_sequences m = ([], Ok cseqs)
    /\ forall cs c, cs ∈ cseqs ->
         PICO8Sequence.channels cs !! c <> Some (Some 0).
Proof.
  sample_module Args.default Samples.silent_pair m H.
  assert (blocks_readable m = true) as Hr by (vm_compute; reflexivity).
  match eval vm_compute in (sequences m) with
  | [?sq] =>
      match eval vm_compute in (Sequence.voices sq) with
      | ?v :: _ =>
          destruct (zero_pattern_still_converted _ _ _ _ sq v H)
            as (i & Hi & _ & _ & _ & _ & Hpat & cseqs & Hc & Hno);
            [by left|by left|reflexivity|]
      end
  end.
  vm_compute in Hi. injection Hi as <-.
  destruct (Hpat Hr) as (pats & _ & _ & _ & _ & Hline).
  exists [], m, cseqs. split; [exact H|]. split; [reflexivity|].
  split; [vm_compute; reflexivity|]. split; [exact Hline|].
  split; [exact Hc|exact Hno].
Defined.

(** ** The speed of the source sequences *)

Lemma for_each_ext {A S} (f g : S -> A -> M S) l s :
  (forall s x, x ∈ l -> f s x = g s x) -> for_each f l s = for_each g l s.
Proof.
  revert s. induction l as [|x l IH]; intros s H; cbn [for_each]; [done|].
  rewrite H by left. unfold bind. destruct (g s x) as [o [s'|e]]; [|done].
  rewrite IH; [done|]. intros; apply H; by right.
Qed.

(** Two sequences with the same voices; their speeds may differ. *)
Definition same_voices (s1 s2 : Sequence.t) : Prop :=
  Sequence.voices s1 = Sequence.voices s2.

(** Two modules that the translator cannot tell apart: they agree on the
    arguments, on where the pattern table is, on the bytes of every block,
    on the voices of the sequences and on the set of used patterns.  The
    speeds of their sequences may differ. *)
Record alike (m1 m2 : FutureComposerModule.t) : Prop := {
  alike_args : args m1 = args m2;
  alike_blocks : forall key, block_of m1 key = block_of m2 key;
  alike_voices : Forall2 same_voices (sequences m1) (sequences m2);
  alike_used : used_patterns m1 = used_patterns m2
}.

Lemma collect_used_same_voices sqs1 sqs2 :
  Forall2 same_voices sqs1 sqs2 -> collect_used sqs1 = collect_used sqs2.
Proof.
  intros HF. rewrite !collect_used_seen. f_equal. unfold voice_keys. f_equal.
  f_equal. induction HF as [|s1 s2 l1 l2 Hs _ IH]; cbn [map]; [done|].
  by rewrite Hs, IH.
Qed.

Lemma convert_voice_alike m1 m2 cs v :
  used_patterns m1 = used_patterns m2 ->
  convert_voice m1 cs v = convert_voice m2 cs v.
Proof. intros H. unfold convert_voice. by rewrite H. Qed.

Lemma convert_sequences_alike m1 m2 :
  alike m1 m2 -> convert_sequences m1 = convert_sequences m2.
Proof.
  intros [_ _ HF Hu]. unfold convert_sequences. rewrite !for_each_append.
  f_equal. induction HF as [|s1 s2 l1 l2 Hs _ IH]; cbn [mapM]; [done|].
  rewrite IH. f_equal.
  unfold convert_sequence. rewrite Hs. apply for_each_ext.
  intros; by apply convert_voice_alike.
Qed.

Lemma convert_row_alike m1 m2 pn pt pattern p r :
  args m1 = args m2 ->
  convert_row m1 pn pt pattern p r = convert_row m2 pn pt pattern p r.
Proof. intros H. unfold convert_row. by rewrite H. Qed.

Lemma convert_pattern_alike m1 m2 key :
  args m1 = args m2 -> block_of m1 key = block_of m2 key ->
  convert_pattern m1 key = convert_pattern m2 key.
Proof.
  intros Ha Hb. unfold convert_pattern.
  fold (pat_num_of key). fold (block_offset m1 key). fold (block_offset m2 key).
  fold (block_of m1 key). fold (block_of m2 key). rewrite Ha, Hb.
  apply for_each_ext. intros; by apply convert_row_alike.
Qed.

Lemma convert_patterns_alike m1 m2 :
  alike m1 m2 -> convert_patterns m1 = convert_patterns m2.
Proof.
  intros [Ha Hb _ Hu]. unfold convert_patterns. rewrite Hu.
  apply for_each_ext. intros acc key _.
  by rewrite (convert_pattern_alike m1 m2 key Ha (Hb key)).
Qed.

(** Byte [p] of the file is the speed byte of one of its sequence
    records. *)
Definition speed_position (buf : list byte) (p : nat) : bool :=
  let off := Z.to_nat (sequence_offset_of buf) in
  let num := Z.to_nat (field buf 4 / 13) in
  (off <=? p)%nat && (p <? off + num * 13)%nat
  && ((p - off) mod 13 =? 12)%nat.

(** The two files have the same length and the same bytes, except
    possibly speed bytes. *)
Definition differ_only_in_speeds (buf1 buf2 : list byte) : bool :=
  (length buf1 =? length buf2)%nat
  && forallb
       (fun p => bool_decide (buf1 !! p = buf2 !! p) || speed_position buf1 p)
       (seq 0 (length buf1)).

(** The blocks of the 256 pattern numbers lie after the sequence table,
    or before it: no byte is both a speed byte and a byte of a pattern
    block. *)
Definition tables_apart (buf : list byte) : bool :=
  (sequence_offset_of buf + 13 * (field buf 4 / 13) <=? field buf 8)
  || (field buf 8 + 256 * 64 <=? sequence_offset_of buf).

Section SpeedBytes.

Context (buf1 buf2 : list byte).
Hypothesis Hdiff : differ_only_in_speeds buf1 buf2 = true.

Lemma differ_length : length buf1 = length buf2.
Proof using Hdiff.
  unfold differ_only_in_speeds in Hdiff.
  apply andb_true_iff in Hdiff as [H _]. by apply Nat.eqb_eq.
Qed.

Lemma differ_agree p :
  speed_position buf1 p = false -> buf1 !! p = buf2 !! p.
Proof using Hdiff.
  intros Hp. destruct (decide (p < length buf1)%nat) as [Hlt|Hge].
  - unfold differ_only_in_speeds in Hdiff.
    apply andb_true_iff in Hdiff as [_ H]. rewrite forallb_forall in H.
    specialize (H p). rewrite in_seq, Hp, orb_false_r in H.
    eapply bool_decide_eq_true_1, H. lia.
  - rewrite !lookup_ge_None_2; [done|rewrite <- differ_length; lia|lia].
Qed.

Lemma sequence_offset_of_ge buf : 100 <= sequence_offset_of buf.
Proof. unfold sequence_offset_of. case_bool_decide; lia. Qed.

Lemma differ_agree_header p : (p < 100)%nat -> buf1 !! p = buf2 !! p.
Proof using Hdiff.
  intros Hp. apply differ_agree. unfold speed_position.
  pose proof (sequence_offset_of_ge buf1).
  replace (Z.to_nat (sequence_offset_of buf1) <=? p)%nat with false; [done|].
  symmetry. apply Nat.leb_gt. lia.
Qed.

Lemma slice_agree (l1 l2 : list byte) lo hi :
  (forall p, (lo <= p < hi)%nat -> l1 !! p = l2 !! p) ->
  slice l1 lo hi = slice l2 lo hi.
Proof.
  intros H. unfold slice. apply list_eq. intros i.
  destruct (decide (i < hi - lo)%nat).
  - rewrite !lookup_take_lt, !lookup_drop by done. apply H. lia.
  - rewrite !lookup_take_ge by lia. done.
Qed.

Lemma differ_slice_header lo hi :
  (hi <= 100)%nat -> slice buf1 lo hi = slice buf2 lo hi.
Proof using Hdiff.
  intros H. apply slice_agree. intros p Hp. apply differ_agree_header. lia.
Qed.

Lemma differ_field lo : (lo + 4 <= 100)%nat -> field buf1 lo = field buf2 lo.
Proof using Hdiff. intros H. unfold field. by rewrite differ_slice_header. Qed.

Lemma differ_take4 : take 4 buf1 = take 4 buf2.
Proof using Hdiff. apply (differ_slice_header 0 4). lia. Qed.

Lemma differ_sequence_offset :
  sequence_offset_of buf1 = sequence_offset_of buf2.
Proof using Hdiff. unfold sequence_offset_of. by rewrite differ_take4. Qed.

(** The bytes of a voice are not speed bytes. *)
Lemma differ_agree_voice i j :
  (j < 12)%nat ->
  record_at buf1 (sequence_offset_of buf1) i !! j
  = record_at buf2 (sequence_offset_of buf1) i !! j.
Proof using Hdiff.
  intros Hj. unfold record_at. rewrite !lookup_drop. apply differ_agree.
  unfold speed_position. cbv zeta.
  replace (Z.to_nat (sequence_offset_of buf1) + i * 13 + j
           - Z.to_nat (sequence_offset_of buf1))%nat
    with (j + i * 13)%nat by lia.
  rewrite Nat.Div0.mod_add, Nat.mod_small by lia.
  replace (j =? 12)%nat with false by (symmetry; apply Nat.eqb_neq; lia).
  by rewrite andb_false_r.
Qed.

Lemma differ_record_length off i :
  length (record_at buf1 off i) = length (record_at buf2 off i).
Proof using Hdiff. unfold record_at. by rewrite !length_drop, differ_length. Qed.

End SpeedBytes.

(** Two statements print the same lines and end the same way, with
    results related by [R]. *)
Definition outcomes_alike {A} (R : A -> A -> Prop) (r1 r2 : M A) : Prop :=
  r1.1 = r2.1
  /\ match r1.2, r2.2 with
     | Ok a1, Ok a2 => R a1 a2
     | Raise e1, Raise e2 => e1 = e2
     | _, _ => False
     end.

Lemma outcomes_alike_refl {A} (m : M A) : outcomes_alike eq m m.
Proof. split; [done|]. by destruct (m.2). Qed.

Lemma outcomes_alike_eq {A} (m1 m2 : M A) :
  outcomes_alike eq m1 m2 -> m1 = m2.
Proof.
  destruct m1 as [o1 [a1|e1]], m2 as [o2 [a2|e2]]; intros [Ho Hr];
    simpl in *; subst; done.
Qed.

Lemma outcomes_alike_ret {A} (R : A -> A -> Prop) a1 a2 :
  R a1 a2 -> outcomes_alike R (ret a1) (ret a2).
Proof. by split. Qed.

Lemma outcomes_alike_bind {A B} (R : A -> A -> Prop) (Q : B -> B -> Prop)
    (m1 m2 : M A) (k1 k2 : A -> M B) :
  outcomes_alike R m1 m2 ->
  (forall a1 a2, R a1 a2 -> outcomes_alike Q (k1 a1) (k2 a2)) ->
  outcomes_alike Q (bind m1 k1) (bind m2 k2).
Proof.
  destruct m1 as [o1 [a1|e1]], m2 as [o2 [a2|e2]]; intros [Ho Hr] Hk;
    simpl in *; subst; try done.
  specialize (Hk a1 a2 Hr). unfold bind.
  destruct (k1 a1) as [p1 r1], (k2 a2) as [p2 r2]. destruct Hk as [Hp Hq].
  simpl in *. subst. done.
Qed.

Lemma outcomes_alike_for_each {A S} (R : S -> S -> Prop)
    (f1 f2 : S -> A -> M S) l s1 s2 :
  (forall s1 s2 x, R s1 s2 -> outcomes_alike R (f1 s1 x) (f2 s2 x)) ->
  R s1 s2 ->
  outcomes_alike R (for_each f1 l s1) (for_each f2 l s2).
Proof.
  intros Hf. revert s1 s2. induction l as [|x l IH]; intros s1 s2 Hs;
    cbn [for_each].
  - by apply outcomes_alike_ret.
  - eapply outcomes_alike_bind; [by apply Hf|]. apply IH.
Qed.

Lemma Voice_init_agree n data1 data2 :
  (forall j, (j < 3)%nat -> data1 !! j = data2 !! j) ->
  Voice.init n data1 = Voice.init n data2.
Proof.
  intros H. unfold Voice.init, getitem. by rewrite !H by lia.
Qed.

(** Records that agree on their first twelve bytes and in length decode
    to sequences with the same voices, or fail alike. *)
Lemma Sequence_init_alike data1 data2 :
  (forall j, (j < 12)%nat -> data1 !! j = data2 !! j) ->
  length data1 = length data2 ->
  outcomes_alike same_voices (Sequence.init data1) (Sequence.init data2).
Proof.
  intros H Hlen. unfold Sequence.init.
  assert (forall n k, (k + 3 <= 12)%nat ->
            Voice.init n (drop k data1) = Voice.init n (drop k data2)) as Hv.
  { intros n k Hk. apply Voice_init_agree. intros j Hj.
    rewrite !lookup_drop. apply H. lia. }
  rewrite (Voice_init_agree 0 data1 data2) by (intros; apply H; lia).
  rewrite !Hv by lia.
  eapply outcomes_alike_bind; [apply outcomes_alike_refl|]. intros v0 ? <-.
  eapply outcomes_alike_bind; [apply outcomes_alike_refl|]. intros v1 ? <-.
  eapply outcomes_alike_bind; [apply outcomes_alike_refl|]. intros v2 ? <-.
  eapply outcomes_alike_bind; [apply outcomes_alike_refl|]. intros v3 ? <-.
  eapply (outcomes_alike_bind (fun _ _ => True)).
  - unfold getitem.
    destruct (data1 !! 12%nat) as [b1|] eqn:E1,
             (data2 !! 12%nat) as [b2|] eqn:E2; try done.
    + apply lookup_lt_Some in E1. apply lookup_ge_None in E2. lia.
    + apply lookup_lt_Some in E2. apply lookup_ge_None in E1. lia.
  - intros sp1 sp2 _. by apply outcomes_alike_ret.
Qed.

Lemma variant_fields_offset buf o wt sd off :
  variant_fields (take 4 buf) buf = (o, Ok (wt, sd, off)) ->
  off = sequence_offset_of buf.
Proof.
  unfold variant_fields, sequence_offset_of.
  destruct (bool_decide (take 4 buf = FC14)); [by intros [= _ _ _ <-]|].
  destruct (bool_decide (take 4 buf = SMOD)); [by intros [= _ _ _ <-]|done].
Qed.

Section SpeedBytesDecoded.

Context (args : Args.t) (buf1 buf2 : list byte).
Hypothesis Hdiff : differ_only_in_speeds buf1 buf2 = true.
Hypothesis Hapart : tables_apart buf1 = true.

Lemma differ_block lo :
  (Z.to_nat (field buf1 8) <= lo)%nat ->
  (lo + 64 <= Z.to_nat (field buf1 8) + 256 * 64)%nat ->
  slice buf1 lo (lo + 64) = slice buf2 lo (lo + 64).
Proof using Hdiff Hapart.
  intros Hlo Hhi. apply slice_agree. intros p Hp.
  apply (differ_agree _ _ Hdiff).
  unfold speed_position. cbv zeta. unfold tables_apart in Hapart.
  pose proof (sequence_offset_of_ge buf1).
  pose proof (from_bytes_big_nonneg (slice buf1 8 (8 + 4))) as Hpo.
  fold (field buf1 8) in Hpo.
  assert (0 <= field buf1 4 / 13).
  { apply Z.div_pos; [apply from_bytes_big_nonneg|lia]. }
  apply orb_true_iff in Hapart as [Hafter|Hbefore].
  - apply Z.leb_le in Hafter.
    replace (p <? _)%nat with false; [by rewrite andb_false_r|].
    symmetry. apply Nat.ltb_ge. lia.
  - apply Z.leb_le in Hbefore.
    replace (_ <=? p)%nat with false; [done|].
    symmetry. apply Nat.leb_gt. lia.
Qed.

Lemma read_sequence_alike sqs1 sqs2 i :
  Forall2 same_voices sqs1 sqs2 ->
  outcomes_alike (Forall2 same_voices)
    (read_sequence args buf1 (sequence_offset_of buf1) sqs1 i)
    (read_sequence args buf2 (sequence_offset_of buf1) sqs2 i).
Proof using Hdiff.
  intros HF. unfold read_sequence.
  destruct (in_window args i); [|by apply outcomes_alike_ret].
  fold (record_at buf1 (sequence_offset_of buf1) i).
  fold (record_at buf2 (sequence_offset_of buf1) i).
  eapply outcomes_alike_bind.
  - apply Sequence_init_alike.
    + intros j Hj. by apply differ_agree_voice.
    + by apply differ_record_length.
  - intros s1 s2 Hs. apply outcomes_alike_ret.
    apply Forall2_app; [done|]. by constructor.
Qed.

(** The two files decode alike. *)
Lemma init_alike :
  outcomes_alike alike (init args buf1) (init args buf2).
Proof using Hdiff Hapart.
  unfold init.
  rewrite <- (differ_slice_header _ _ Hdiff 0 4) by lia.
  rewrite <- !(differ_field _ _ Hdiff) by lia.
  change (slice buf1 0 4) with (take 4 buf1).
  eapply (outcomes_alike_bind (fun a1 a2 => a1 = a2 /\ a1 = take 4 buf1)).
  { unfold struct_unpack_4s. destruct (_ =? _)%nat; by split. }
  intros magic ? [<- ->].
  eapply outcomes_alike_bind; [apply outcomes_alike_refl|]. intros [] ? _.
  eapply (outcomes_alike_bind
            (fun a1 a2 => a1 = a2 /\ a1.2 = sequence_offset_of buf1)).
  { assert (variant_fields (take 4 buf1) buf2
            = variant_fields (take 4 buf1) buf1) as ->.
    { unfold variant_fields. by rewrite <- (differ_field _ _ Hdiff) by lia. }
    destruct (variant_fields (take 4 buf1) buf1) as [o [[[wt sd] off]|e]] eqn:E;
      [|by split].
    split; [done|]. simpl. split; [done|].
    eapply variant_fields_offset, E. }
  intros [[wt sd] off] ? [<- Hoff]. simpl in Hoff. subst off.
  eapply (outcomes_alike_bind (Forall2 same_voices)).
  { apply outcomes_alike_for_each; [|constructor].
    intros sqs1 sqs2 i HF. by apply read_sequence_alike. }
  intros sqs1 sqs2 HF. rewrite <- (collect_used_same_voices _ _ HF).
  eapply outcomes_alike_bind; [apply outcomes_alike_refl|]. intros [] ? _.
  apply outcomes_alike_ret. split; cbn [FutureComposerModule.args sequences used_patterns];
    try done.
  intros key. unfold block_of, block_offset.
  cbn [contents pattern_offset].
  pose proof (from_bytes_big_nonneg (slice buf1 8 (8 + 4))) as Hpo.
  fold (field buf1 8) in Hpo. pose proof (pat_num_of_range key).
  replace (Z.to_nat (field buf1 8 + pat_num_of key * 64 + 64))
    with (Z.to_nat (field buf1 8 + pat_num_of key * 64) + 64)%nat by lia.
  apply differ_block; lia.
Qed.

End SpeedBytesDecoded.

(** Files that differ only in speed bytes, none of which lies in the
    pattern table, give the same run. *)
Lemma main_ignores_speed_bytes args buf1 buf2 :
  differ_only_in_speeds buf1 buf2 = true -> tables_apart buf1 = true ->
  main args buf1 = main args buf2.
Proof.
  intros Hdiff Hapart. apply outcomes_alike_eq. unfold main.
  eapply outcomes_alike_bind; [by apply init_alike|].
  intros m1 m2 Hm.
  rewrite (convert_sequences_alike _ _ Hm), (convert_patterns_alike _ _ Hm).
  apply outcomes_alike_refl.
Qed.

(** The module with the speed of every sequence replaced. *)
Definition with_speeds (f : Sequence.t -> Z) (m : FutureComposerModule.t)
    : FutureComposerModule.t :=
  {| args := args m;
     contents := contents m;
     magic := magic m;
     sequence_data_size := sequence_data_size m;
     pattern_offset := pattern_offset m;
     pattern_data_size := pattern_data_size m;
     freqmod_offset := freqmod_offset m;
     freqmod_data_size := freqmod_data_size m;
     volume_offset := volume_offset m;
     volume_data_size := volume_data_size m;
     sample_offset := sample_offset m;
     wavetable_offset := wavetable_offset m;
     sample_data_size := sample_data_size m;
     sequence_offset := sequence_offset m;
     samples := samples m;
     sequences :=
       map (fun s => Sequence.mk (Sequence.voices s) (f s)) (sequences m);
     used_patterns := used_patterns m |}.

Lemma alike_with_speeds f m : alike m (with_speeds f m).
Proof.
  split; try done. unfold with_speeds. cbn [sequences].
  apply Forall2_fmap_r, Forall_Forall2_diag, Forall_forall. done.
Qed.

(** C9, amended: every converted pattern carries the speed of the command
    line, which is the speed in its line; the conversions give the same
    result whatever the speeds of the decoded sequences are; and two files
    that differ only in the speed bytes of their sequence records give the
    same run, the same printed lines and the same end, when no such byte is
    also a byte of a pattern block: the blocks of the 256 pattern numbers
    lie after the sequence table, or before it. *)
Theorem source_speed_is_ignored (args : Args.t) (buf1 buf2 : list byte) :
  (forall out m o pats p,
     init args buf1 = (out, Ok m) -> convert_patterns m = (o, Ok pats) ->
     p ∈ pats ->
     PICO8Pattern.speed p = Args.speed args
     /\ PICO8Pattern.format p
        = "01" +:+ fmt_02x (Args.speed args) +:+ "0000"
          +:+ concat_strings (map PICO8Pattern.row_code (PICO8Pattern.rows p)))
  /\ (forall m f,
        convert_sequences (with_speeds f m) = convert_sequences m
        /\ convert_patterns (with_speeds f m) = convert_patterns m)
  /\ (differ_only_in_speeds buf1 buf2 = true -> tables_apart buf1 = true ->
      main args buf1 = main args buf2).
Proof.
  split; [|split].
  - intros out m o pats p H Hc Hp. pose proof (init_decoded _ _ _ _ H) as D.
    apply convert_patterns_Ok_inv in Hc as (_ & _ & ->).
    apply list_elem_of_fmap in Hp as (key & -> & _).
    assert (PICO8Pattern.speed (converted m key) = Args.speed args) as Hs.
    { unfold converted. cbn [PICO8Pattern.speed]. by rewrite (dec_args _ _ _ _ D). }
    split; [done|]. by rewrite pattern_format_spec, Hs.
  - intros m f. pose proof (alike_with_speeds f m) as Ha.
    by rewrite (convert_sequences_alike _ _ Ha), (convert_patterns_alike _ _ Ha).
  - apply main_ignores_speed_bytes.
Qed.

(** C9, amended, on [Samples.song] and [Samples.song_other_speeds],
    whose records have the speed bytes 7, 3 and 200, 0, and whose pattern
    blocks lie after the sequence table: the runs are the same. *)
Lemma source_speed_is_ignored_song :
  nth 112 Samples.song "000"%byte = "007"%byte
  /\ nth 112 Samples.song_other_speeds "000"%byte = "200"%byte
  /\ main Args.default Samples.song
     = main Args.default Samples.song_other_speeds
  /\ (main Args.default Samples.song).2 = Ok tt.
Proof.
  destruct (source_speed_is_ignored Args.default Samples.song
              Samples.song_other_speeds) as (_ & _ & Hmain).
  split; [reflexivity|]. split; [reflexivity|].
  split; [apply Hmain; vm_compute; reflexivity|]. vm_compute. reflexivity.
Defined.

(** An SMOD file whose pattern table starts at byte 36, before the
    sequence table: the block of pattern 1 is bytes 100 to 163 and holds
    the one sequence record; the speed byte of the record, byte 112, is
    also the note byte of row 6 of that block. *)
Definition overlapping (speed : Z) : list byte :=
  SMOD ++ Samples.be32 13 ++ Samples.be32 36
  ++ replicate 88 (Samples.byte_of 0)
  ++ map Samples.byte_of [1; 0; 0;  0; 0; 0;  0; 0; 0;  0; 0; 0;  speed]
  ++ replicate 60 (Samples.byte_of 0).

(** C9 as stated fails on [overlapping 7] and [overlapping 200], two
    files of 173 bytes that differ only in their speed byte: row 6 of the
    first pattern line is ["1f040"] in one run and ["3f040"] in the other,
    which also prints a clamping warning; both runs end normally. *)
Lemma speed_byte_inside_a_pattern_block :
  Z.of_nat (length (overlapping 7)) = 173
  /\ differ_only_in_speeds (overlapping 7) (overlapping 200) = true
  /\ List.filter
       (fun p => negb (bool_decide (overlapping 7 !! p = overlapping 200 !! p)))
       (seq 0 173)
     = [112%nat]
  /\ speed_position (overlapping 7) 112 = true
  /\ tables_apart (overlapping 7) = false
  /\ main Args.default (overlapping 7)
     = (header
        ++ ["__sfx__";
            "010a0000" +:+ "19040" +:+ concat_strings (replicate 5 "00000")
            +:+ "1f040" +:+ concat_strings (replicate 25 "00000");
            "010a0000" +:+ concat_strings (replicate 32 "00000");
            "__music__"; "00 00424344"],
        Ok tt)
  /\ main Args.default (overlapping 200)
     = (warn_above 1
        :: header
        ++ ["__sfx__";
            "010a0000" +:+ "19040" +:+ concat_strings (replicate 5 "00000")
            +:+ "3f040" +:+ concat_strings (replicate 25 "00000");
            "010a0000" +:+ concat_strings (replicate 32 "00000");
            "__music__"; "00 00424344"],
        Ok tt)
  /\ main Args.default (overlapping 7) <> main Args.default (overlapping 200).
Proof.
  repeat split; try (vm_compute; reflexivity).
  intros Heq. vm_compute in Heq. discriminate Heq.
Qed.

(** The overflow warning and the clamping warnings are independent
    prints.  On [Samples.many_keys_loud], with 65 distinct keys and a note
    above the range, the overflow warning is printed once, the clamping
    warning of pattern 1 after it, and the run ends normally with 65
    pattern lines. *)
Lemma overflow_and_clamping_warnings :
  (main Args.default Samples.many_keys_loud).2 = Ok tt
  /\ take 2 (main Args.default Samples.many_keys_loud).1
     = [overflow_warning; warn_above 1]
  /\ length (List.filter (String.prefix "Warning")
               (main Args.default Samples.many_keys_loud).1) = 2%nat
  /\ length (List.filter (String.prefix "01")
               (main Args.default Samples.many_keys_loud).1) = 65%nat.
Proof. repeat split; vm_compute; reflexivity. Qed.

(** * Further properties *)

(** ** How a run can end *)

(** A statement whose printed lines all satisfy [P] and which ends
    normally or in [IndexError]. *)
Definition behaved {A} (P : string -> Prop) (m : M A) : Prop :=
  (forall line, line ∈ m.1 -> P line)
  /\ match m.2 with Ok _ => True | Raise e => e = IndexError end.

Section Behaved.

Context (P : string -> Prop).

Lemma behaved_ret {A} (a : A) : behaved P (ret a).
Proof. split; [|done]. intros line H. by apply elem_of_nil in H. Qed.

Lemma behaved_raise_IndexError {A} : behaved P (@raise A IndexError).
Proof. split; [|done]. intros line H. by apply elem_of_nil in H. Qed.

Lemma behaved_print line : P line -> behaved P (print line).
Proof.
  intros H. split; [|done]. intros l Hl. apply list_elem_of_singleton in Hl.
  by subst.
Qed.

Lemma behaved_bind {A B} (m : M A) (k : A -> M B) :
  behaved P m -> (forall a, behaved P (k a)) -> behaved P (bind m k).
Proof.
  destruct m as [o [a|e]]; intros [Ho Hr] Hk; [|by split].
  specialize (Hk a). unfold bind. destruct (k a) as [o' r'].
  destruct Hk as [Ho' Hr']. simpl in *. split; [|done].
  intros line Hl. apply elem_of_app in Hl as [Hl|Hl]; auto.
Qed.

Lemma behaved_for_each {A S} (body : S -> A -> M S) l s :
  (forall s x, behaved P (body s x)) -> behaved P (for_each body l s).
Proof.
  intros Hb. revert s. induction l as [|x l IH]; intros s; cbn [for_each].
  - apply behaved_ret.
  - apply behaved_bind; auto.
Qed.

Lemma behaved_mapM {A B} (f : A -> M B) l :
  (forall x, behaved P (f x)) -> behaved P (mapM f l).
Proof.
  intros Hf. induction l as [|x l IH]; cbn [mapM]; [apply behaved_ret|].
  apply behaved_bind; [done|]. intros y.
  apply behaved_bind; [done|]. intros ys. apply behaved_ret.
Qed.

Lemma behaved_getitem data i : behaved P (getitem data i).
Proof.
  unfold getitem. destruct (data !! i);
    [apply behaved_ret|apply behaved_raise_IndexError].
Qed.

End Behaved.

Lemma behaved_Sequence_init P data : behaved P (Sequence.init data).
Proof.
  unfold Sequence.init, Voice.init.
  repeat first
    [ apply behaved_ret | apply behaved_getitem
    | apply behaved_bind; [|intros ?] ].
Qed.

(** A line that reports a clamped note. *)
Definition clamping_line (line : string) : Prop :=
  exists pat_num, line = warn_above pat_num \/ line = warn_below pat_num.

Lemma behaved_convert_row m pn pt pattern p r :
  behaved clamping_line (convert_row m pn pt pattern p r).
Proof.
  unfold convert_row. apply behaved_bind; [apply behaved_getitem|].
  intros note. destruct (note >? 0); [|apply behaved_ret].
  apply behaved_bind; [apply behaved_getitem|]. intros info.
  apply behaved_bind.
  { destruct (_ >? 63); [|apply behaved_ret].
    apply behaved_bind; [|intros; apply behaved_ret].
    apply behaved_print. exists pn. by left. }
  intros n1. apply behaved_bind.
  { destruct (_ <? 0); [|apply behaved_ret].
    apply behaved_bind; [|intros; apply behaved_ret].
    apply behaved_print. exists pn. by right. }
  intros n2. unfold PICO8Pattern.set.
  destruct (_ <? _)%nat; [apply behaved_ret|apply behaved_raise_IndexError].
Qed.

Lemma behaved_convert_patterns m :
  behaved clamping_line (convert_patterns m).
Proof.
  unfold convert_patterns. apply behaved_for_each. intros acc key.
  apply behaved_bind; [|intros; apply behaved_ret].
  unfold convert_pattern. apply behaved_for_each. intros p r.
  apply behaved_convert_row.
Qed.

Lemma short_file_raises args buf :
  (length buf < 4)%nat -> init args buf = ([], Raise StructError).
Proof.
  intros H. unfold init. change (slice buf 0 4) with (take 4 buf).
  unfold struct_unpack_4s. rewrite length_take.
  replace (4 `min` length buf =? 4)%nat with false; [done|].
  symmetry. apply Nat.eqb_neq. lia.
Qed.

(** With a known tag the constructor returns or ends in [IndexError],
    having printed nothing in that case. *)
Lemma init_known_tag args buf :
  take 4 buf = SMOD \/ take 4 buf = FC14 ->
  init args buf = ([], Raise IndexError)
  \/ exists out m, init args buf = (out, Ok m).
Proof.
  intros Hmagic. unfold init.
  assert (slice buf 0 4 = take 4 buf) as -> by reflexivity.
  assert (struct_unpack_4s (take 4 buf) = ret (take 4 buf)) as ->.
  { unfold struct_unpack_4s. by destruct Hmagic as [-> | ->]. }
  rewrite bind_ret_l.
  assert (check_magic (take 4 buf) = ret tt) as ->.
  { unfold check_magic. by destruct Hmagic as [-> | ->]. }
  rewrite bind_ret_l.
  assert (exists wt sd, variant_fields (take 4 buf) buf
                        = ret (wt, sd, sequence_offset_of buf)) as (wt & sd & ->).
  { unfold variant_fields, sequence_offset_of.
    destruct Hmagic as [-> | ->]; simpl; eauto. }
  rewrite bind_ret_l, read_loop.
  set (loop := mapM _ _).
  assert (silent loop) as Hs.
  { unfold loop. clear. induction (List.filter _ _) as [|i l IH]; cbn [mapM].
    - apply silent_ret.
    - apply silent_bind; [apply silent_Sequence_init|]. intros s.
      apply silent_bind; [done|]. intros; apply silent_ret. }
  assert (behaved (fun _ => True) loop) as [_ Hb].
  { apply behaved_mapM. intros; apply behaved_Sequence_init. }
  destruct loop as [o [ys|e]]; unfold silent in Hs; simpl in Hs, Hb; subst.
  - right. unfold bind at 2. cbn [app]. unfold bind at 1, ret at 1.
    destruct (64 <? length (collect_used ys))%nat; unfold bind, print, ret;
      cbn; eauto.
  - by left.
Qed.

(** X1: a file of fewer than four bytes, the empty file included, ends
    the run in [struct.error] before anything is printed. *)
Theorem short_file_ends_in_struct_error (args : Args.t) (buf : list byte) :
  (length buf < 4)%nat ->
  main args buf = ([], Raise StructError)
  /\ exit_status (main args buf).2 = 1.
Proof.
  intros H. rewrite (main_init_Raise _ _ _ _ (short_file_raises args buf H)).
  done.
Qed.

Lemma short_file_ends_in_struct_error_empty :
  main Args.default [] = ([], Raise StructError)
  /\ exit_status (main Args.default []).2 = 1.
Proof. apply short_file_ends_in_struct_error. simpl. lia. Defined.

(** X2: with a known tag, when a sequence record of the window does not
    lie wholly inside the file, the run ends in [IndexError] before
    anything is printed. *)
Theorem cut_sequence_table_ends_in_IndexError (args : Args.t)
    (buf : list byte) :
  take 4 buf = SMOD \/ take 4 buf = FC14 ->
  records_in_range args buf = false ->
  main args buf = ([], Raise IndexError).
Proof.
  intros Hmagic Hcut. apply main_init_Raise.
  destruct (init_known_tag args buf Hmagic) as [H|(out & m & H)]; [done|].
  apply init_decoded, decoded_records_in_range in H. congruence.
Qed.

Lemma cut_sequence_table_ends_in_IndexError_song :
  length (take 120 Samples.song) = 120%nat
  /\ main Args.default (take 120 Samples.song) = ([], Raise IndexError).
Proof.
  split; [reflexivity|].
  apply cut_sequence_table_ends_in_IndexError; [by left|reflexivity].
Defined.

Lemma unreadable_blocks_raise args buf out m :
  init args buf = (out, Ok m) ->
  blocks_readable m = false ->
  exists o,
    main args buf = (out ++ o, Raise IndexError)
    /\ (forall line, line ∈ o -> clamping_line line).
Proof.
  intros H Hcut. pose proof (init_decoded _ _ _ _ H) as D.
  pose proof (behaved_convert_patterns m) as [Ho Hr].
  destruct (convert_patterns m) as [o [pats|e]] eqn:Hc.
  { apply convert_patterns_readable in Hc. congruence. }
  simpl in Ho, Hr. subst e. exists o. split; [|done].
  unfold main. rewrite (bind_Ok _ _ _ _ H).
  rewrite (convert_sequences_spec _ _ _ _ D), bind_ret_l.
  by rewrite (bind_Raise _ _ _ _ Hc).
Qed.




(** X3: when the constructor returned and a byte that the conversion of
    a used pattern reads lies outside the file, the run ends in
    [IndexError]; besides what the constructor printed, only clamping
    warnings were printed: no line of the cartridge. *)
Theorem cut_pattern_table_ends_in_IndexError (args : Args.t)
    (buf : list byte) (out : list string) (m : FutureComposerModule.t) :
  init args buf = (out, Ok m) ->
  blocks_readable m = false ->
  exists o,
    main args buf = (out ++ o, Raise IndexError)
    /\ (forall line, line ∈ o -> clamping_line line)
    /\ (forall line, line ∈ out ++ o -> String.prefix "Warning" line = true).
Proof.
  intros H Hcut. pose proof (init_decoded _ _ _ _ H) as D.
  destruct (unreadable_blocks_raise _ _ _ _ H Hcut) as (o & Hmain & Ho).
  exists o. split; [done|]. split; [done|].
  intros line Hl. apply elem_of_app in Hl as [Hl|Hl].
  - rewrite (dec_out _ _ _ _ D) in Hl.
    destruct (64 <? _)%nat; [|by apply elem_of_nil in Hl].
    apply list_elem_of_singleton in Hl. by subst.
  - destruct (Ho line Hl) as [pn [-> | ->]]; reflexivity.
Qed.

Lemma cut_pattern_table_ends_in_IndexError_song :
  exists out m,
    init Args.default (take 200 Samples.song) = (out, Ok m)
    /\ main Args.default (take 200 Samples.song)
       = ([warn_above 1], Raise IndexError).
Proof.
  sample_module Args.default (take 200 Samples.song) m H.
  destruct (cut_pattern_table_ends_in_IndexError _ _ _ _ H)
    as (o & Hmain & _ & _); [vm_compute; reflexivity|].
  exists [], m. split; [exact H|].
  rewrite Hmain. f_equal. cbn [app].
  vm_compute in Hmain. by injection Hmain as <-.
Defined.

(** X4: whatever the arguments and the file, a run that does not end
    normally ends in [struct.error], in the [NameError] on [magic] or in
    [IndexError]: [sys.exit] is never reached, and [list.index] never
    fails. *)
Theorem run_ends_in_three_ways (args : Args.t) (buf : list byte)
    (o : list string) (e : exn) :
  main args buf = (o, Raise e) ->
  (e = StructError /\ (length buf < 4)%nat /\ o = [])
  \/ (e = NameError "magic" /\ (4 <= length buf)%nat
      /\ take 4 buf <> SMOD /\ take 4 buf <> FC14 /\ o = [])
  \/ (e = IndexError
      /\ (take 4 buf = SMOD \/ take 4 buf = FC14)).
Proof.
  intros H. destruct (decide (length buf < 4)%nat) as [Hlen|Hlen].
  { left. rewrite (main_init_Raise _ _ _ _ (short_file_raises args buf Hlen)) in H.
    by injection H as <- <-. }
  right. destruct (decide (take 4 buf = SMOD)) as [Hs|Hs];
    [|destruct (decide (take 4 buf = FC14)) as [Hf|Hf]].
  3: { left. rewrite unknown_magic_raises in H by (done || lia).
       injection H as <- <-. repeat split; (done || lia). }
  all: right; split; [|by auto].
  all: assert (take 4 buf = SMOD \/ take 4 buf = FC14) as Hmagic by auto.
  all: destruct (init_known_tag args buf Hmagic) as [Hi|(out & m & Hi)];
    [rewrite (main_init_Raise _ _ _ _ Hi) in H; by injection H as _ <-|].
  all: destruct (blocks_readable m) eqn:Hr;
    [rewrite (main_spec _ _ _ _ Hi Hr) in H; discriminate H|].
  all: destruct (unreadable_blocks_raise _ _ _ _ Hi Hr)
    as (o' & Hmain & _); rewrite Hmain in H; by injection H as _ <-.
Qed.

Lemma run_ends_in_three_ways_unknown_tag :
  (NameError "magic" = StructError /\ (length Samples.unknown_tag < 4)%nat
   /\ @nil string = [])
  \/ (NameError "magic" = NameError "magic"
      /\ (4 <= length Samples.unknown_tag)%nat
      /\ take 4 Samples.unknown_tag <> SMOD
      /\ take 4 Samples.unknown_tag <> FC14 /\ @nil string = [])
  \/ (NameError "magic" = IndexError
      /\ (take 4 Samples.unknown_tag = SMOD
          \/ take 4 Samples.unknown_tag = FC14)).
Proof.
  apply (run_ends_in_three_ways Args.default). vm_compute. reflexivity.
Defined.

(** ** The header and the samples *)

Lemma from_bytes_big_app l1 l2 :
  from_bytes_big (l1 ++ l2)
  = from_bytes_big l1 * 256 ^ Z.of_nat (length l2) + from_bytes_big l2.
Proof.
  unfold from_bytes_big. revert l1. induction l2 as [|b l2 IH] using rev_ind;
    intros l1.
  - rewrite app_nil_r. simpl. lia.
  - rewrite app_assoc, !fold_left_app. cbn [fold_left].
    rewrite <- fold_left_app, IH, length_app. cbn [length].
    rewrite Nat2Z.inj_add, Z.pow_add_r by lia.
    change (256 ^ Z.of_nat 1) with 256. lia.
Qed.

Lemma from_bytes_big_bound l :
  0 <= from_bytes_big l < 256 ^ Z.of_nat (length l).
Proof.
  induction l as [|b l IH] using rev_ind; [vm_compute; split; [discriminate | reflexivity]|].
  rewrite from_bytes_big_app, length_app. cbn [length].
  rewrite Nat2Z.inj_add, Z.pow_add_r by lia.
  change (256 ^ Z.of_nat 1) with 256.
  assert (from_bytes_big [b] = byte_val b) as -> by (unfold from_bytes_big; simpl; lia).
  pose proof (byte_val_range b). nia.
Qed.

Lemma length_slice_le (l : list byte) lo hi : (length (slice l lo hi) <= hi - lo)%nat.
Proof. unfold slice. rewrite length_take. lia. Qed.

(** A slice that lies inside the list, byte by byte. *)
Lemma slice_2 (l : list byte) lo b0 b1 :
  l !! lo = Some b0 -> l !! (lo + 1)%nat = Some b1 ->
  slice l lo (lo + 2) = [b0; b1].
Proof.
  intros H0 H1. unfold slice. replace (lo + 2 - lo)%nat with 2%nat by lia.
  rewrite (drop_S _ _ _ H0). cbn [take]. f_equal.
  replace (S lo) with (lo + 1)%nat by lia. rewrite (drop_S _ _ _ H1). done.
Qed.

Lemma slice_4 (l : list byte) lo b0 b1 b2 b3 :
  l !! lo = Some b0 -> l !! (lo + 1)%nat = Some b1 ->
  l !! (lo + 2)%nat = Some b2 -> l !! (lo + 3)%nat = Some b3 ->
  slice l lo (lo + 4) = [b0; b1; b2; b3].
Proof.
  intros H0 H1 H2 H3. unfold slice.
  replace (lo + 4 - lo)%nat with 4%nat by lia.
  rewrite (drop_S _ _ _ H0). cbn [take]. f_equal.
  replace (S lo) with (lo + 1)%nat by lia. rewrite (drop_S _ _ _ H1).
  cbn [take]. f_equal.
  replace (S (lo + 1)) with (lo + 2)%nat by lia. rewrite (drop_S _ _ _ H2).
  cbn [take]. f_equal.
  replace (S (lo + 2)) with (lo + 3)%nat by lia. rewrite (drop_S _ _ _ H3).
  done.
Qed.

(** The module the constructor returns, field by field. *)
Lemma init_Ok_record args buf out m :
  init args buf = (out, Ok m) ->
  exists wt sd off,
    variant_fields (take 4 buf) buf = ret (wt, sd, off)
    /\ m = FutureComposerModule.mk args buf (take 4 buf) (field buf 4)
             (field buf 8) (field buf 12) (field buf 16) (field buf 20)
             (field buf 24) (field buf 28) (field buf 32) wt sd off
             (map (fun i => Sample.init (drop (40 + i * 6)%nat buf)) (seq 0 10))
             (sequences m) (used_patterns m).
Proof.
  unfold init. intros H.
  apply bind_Ok_inv in H as (o1 & mg & ? & Hm & H & ->).
  apply bind_Ok_inv in H as (o2 & [] & ? & Hc & H & ->).
  apply bind_Ok_inv in H as (o3 & [[wt sd] off] & ? & Hv & H & ->).
  apply bind_Ok_inv in H as (o4 & sqs & ? & Hs & H & ->).
  apply bind_Ok_inv in H as (o5 & [] & ? & Hw & H & ->).
  ret_inv H.
  unfold struct_unpack_4s in Hm.
  destruct (length (slice buf 0 4) =? 4)%nat; [|discriminate]. ret_inv Hm.
  exists wt, sd, off. split; [|reflexivity].
  change (slice buf 0 4) with (take 4 buf) in Hv.
  unfold variant_fields in *.
  destruct (bool_decide (take 4 buf = FC14)); [by ret_inv Hv|].
  destruct (bool_decide (take 4 buf = SMOD)); [by ret_inv Hv|discriminate].
Qed.

(** X5: the constructor reads the eight header fields at bytes 4 to 35
    as big-endian 32-bit numbers; the field at byte 36 is the wavetable
    offset of an FC14 file, whose sequence table starts at byte 180, and
    the sample data size of an SMOD file, whose sequence table starts at
    byte 100. *)
Theorem header_is_decoded (args : Args.t) (buf : list byte)
    (out : list string) (m : FutureComposerModule.t) :
  init args buf = (out, Ok m) ->
  contents m = buf /\ FutureComposerModule.args m = args
  /\ sequence_data_size m = field buf 4 /\ pattern_offset m = field buf 8
  /\ pattern_data_size m = field buf 12 /\ freqmod_offset m = field buf 16
  /\ freqmod_data_size m = field buf 20 /\ volume_offset m = field buf 24
  /\ volume_data_size m = field buf 28 /\ sample_offset m = field buf 32
  /\ ((magic m = FC14 /\ sequence_offset m = 180
       /\ wavetable_offset m = Some (field buf 36)
       /\ sample_data_size m = None)
      \/ (magic m = SMOD /\ sequence_offset m = 100
          /\ wavetable_offset m = None
          /\ sample_data_size m = Some (field buf 36)))
  /\ (forall lo, 0 <= field buf lo < 2 ^ 32)
  /\ (forall lo b0 b1 b2 b3,
        buf !! lo = Some b0 -> buf !! (lo + 1)%nat = Some b1 ->
        buf !! (lo + 2)%nat = Some b2 -> buf !! (lo + 3)%nat = Some b3 ->
        field buf lo
        = byte_val b0 * 2 ^ 24 + byte_val b1 * 2 ^ 16 + byte_val b2 * 2 ^ 8
          + byte_val b3).
Proof.
  intros H. destruct (init_Ok_record _ _ _ _ H) as (wt & sd & off & Hv & Hm).
  rewrite Hm. cbn. repeat (split; [reflexivity|]).
  split; [|split].
  - unfold variant_fields in Hv.
    destruct (bool_decide (take 4 buf = FC14)) eqn:E1.
    { apply bool_decide_eq_true in E1. ret_inv Hv. by left. }
    destruct (bool_decide (take 4 buf = SMOD)) eqn:E2; [|discriminate].
    apply bool_decide_eq_true in E2. ret_inv Hv. by right.
  - intros lo. unfold field.
    pose proof (from_bytes_big_bound (slice buf lo (lo + 4))) as [Hl Hu].
    split; [done|]. eapply Z.lt_le_trans; [exact Hu|].
    change (2 ^ 32) with (256 ^ 4). apply Z.pow_le_mono_r; [lia|].
    pose proof (length_slice_le buf lo (lo + 4)). lia.
  - intros lo b0 b1 b2 b3 H0 H1 H2 H3. unfold field.
    rewrite (slice_4 _ _ _ _ _ _ H0 H1 H2 H3). unfold from_bytes_big.
    cbn [fold_left]. lia.
Qed.

Lemma header_is_decoded_song :
  exists out m,
    init Args.default Samples.song = (out, Ok m)
    /\ magic m = SMOD /\ sequence_offset m = 100
    /\ sequence_data_size m = 26 /\ pattern_offset m = 126
    /\ pattern_data_size m = 128 /\ sample_data_size m = Some 0.
Proof.
  sample_module Args.default Samples.song m H.
  destruct (header_is_decoded _ _ _ _ H)
    as (_ & _ & Hs & Hp & Hd & _ & _ & _ & _ & _ & Hv & _).
  exists [], m. split; [exact H|].
  destruct Hv as [(Hm & _)|(Hm & Ho & _ & Hsd)]; [discriminate Hm|].
  rewrite Hs, Hp, Hd, Hsd. repeat split; try assumption; reflexivity.
Defined.

(** X6: the constructor decodes ten samples, sample [i] from the six
    bytes at [40 + 6*i]: three big-endian 16-bit numbers, each in
    0..65535, whatever the length of the file. *)
Theorem samples_are_decoded (args : Args.t) (buf : list byte)
    (out : list string) (m : FutureComposerModule.t) :
  init args buf = (out, Ok m) ->
  length (samples m) = 10%nat
  /\ forall i sample, samples m !! i = Some sample ->
       (i < 10)%nat
       /\ sample = Sample.init (drop (40 + i * 6)%nat buf)
       /\ 0 <= Sample.length sample < 65536
       /\ 0 <= Sample.loop_start sample < 65536
       /\ 0 <= Sample.loop_length sample < 65536
       /\ (forall b0 b1 b2 b3 b4 b5,
             buf !! (40 + i * 6)%nat = Some b0 ->
             buf !! (40 + i * 6 + 1)%nat = Some b1 ->
             buf !! (40 + i * 6 + 2)%nat = Some b2 ->
             buf !! (40 + i * 6 + 3)%nat = Some b3 ->
             buf !! (40 + i * 6 + 4)%nat = Some b4 ->
             buf !! (40 + i * 6 + 5)%nat = Some b5 ->
             Sample.length sample = byte_val b0 * 256 + byte_val b1
             /\ Sample.loop_start sample = byte_val b2 * 256 + byte_val b3
             /\ Sample.loop_length sample = byte_val b4 * 256 + byte_val b5).
Proof.
  intros H. destruct (init_Ok_record _ _ _ _ H) as (wt & sd & off & _ & Hm).
  rewrite Hm. cbn [samples]. split; [by rewrite length_map, length_seq|].
  intros i sample Hi.
  change (map ?f ?l) with (f <$> l) in Hi. rewrite list_lookup_fmap in Hi.
  destruct (seq 0 10 !! i) as [k|] eqn:Hk; [|done].
  apply lookup_seq in Hk as [-> Hlt]. injection Hi as <-.
  split; [done|]. split; [done|].
  assert (forall l lo, 0 <= from_bytes_big (slice l lo (lo + 2)) < 65536) as Hb.
  { intros l lo. pose proof (from_bytes_big_bound (slice l lo (lo + 2))) as [? Hu].
    split; [done|]. eapply Z.lt_le_trans; [exact Hu|].
    change 65536 with (256 ^ 2). apply Z.pow_le_mono_r; [lia|].
    pose proof (length_slice_le l lo (lo + 2)). lia. }
  unfold Sample.init. cbn [Sample.length Sample.loop_start Sample.loop_length].
  split; [apply (Hb _ 0%nat)|]. split; [apply (Hb _ 2%nat)|].
  split; [apply (Hb _ 4%nat)|].
  intros b0 b1 b2 b3 b4 b5 H0 H1 H2 H3 H4 H5.
  rewrite (slice_2 _ 0 b0 b1), (slice_2 _ 2 b2 b3), (slice_2 _ 4 b4 b5);
    try (rewrite lookup_drop; first [exact H0|exact H1|exact H2|exact H3
                                    |exact H4|exact H5
                                    |by rewrite Nat.add_0_r]).
  unfold from_bytes_big. cbn [fold_left]. lia.
Qed.

(** [Samples.song] with the six bytes of its first sample set to
    1, 2, 3, 4, 5, 6. *)
Definition song_with_sample : list byte :=
  take 40 Samples.song ++ map Samples.byte_of [1; 2; 3; 4; 5; 6]
  ++ drop 46 Samples.song.

Lemma samples_are_decoded_song :
  exists out m,
    init Args.default song_with_sample = (out, Ok m)
    /\ length (samples m) = 10%nat
    /\ samples m !! 0%nat = Some (Sample.mk 258 772 1286).
Proof.
  sample_module Args.default song_with_sample m H.
  destruct (samples_are_decoded _ _ _ _ H) as [Hlen Hs].
  exists [], m. split; [exact H|]. split; [exact Hlen|].
  destruct (samples m !! 0%nat) as [s|] eqn:E.
  - destruct (Hs 0%nat s E) as (_ & -> & _). reflexivity.
  - apply lookup_ge_None in E. rewrite Hlen in E. lia.
Defined.

(** ** What the run does not read *)

(** The two files have the same length and the same bytes, except
    possibly from byte 12 up to the start of the sequence table: the
    header fields after the pattern offset and the sample table. *)
Definition differ_only_in_unused (buf1 buf2 : list byte) : bool :=
  (length buf1 =? length buf2)%nat
  && forallb
       (fun p => bool_decide (buf1 !! p = buf2 !! p)
                 || ((12 <=? p)%nat
                     && (p <? Z.to_nat (sequence_offset_of buf1))%nat))
       (seq 0 (length buf1)).

Section UnusedBytes.

Context (args : Args.t) (buf1 buf2 : list byte).
Hypothesis Hdiff : differ_only_in_unused buf1 buf2 = true.
Hypothesis Hafter : sequence_offset_of buf1 <= field buf1 8.

Lemma unused_length : length buf1 = length buf2.
Proof using Hdiff.
  unfold differ_only_in_unused in Hdiff.
  apply andb_true_iff in Hdiff as [H _]. by apply Nat.eqb_eq.
Qed.

Lemma unused_agree p :
  (p < 12 \/ Z.to_nat (sequence_offset_of buf1) <= p)%nat ->
  buf1 !! p = buf2 !! p.
Proof using Hdiff.
  intros Hp. destruct (decide (p < length buf1)%nat) as [Hlt|Hge].
  - unfold differ_only_in_unused in Hdiff.
    apply andb_true_iff in Hdiff as [_ H]. rewrite forallb_forall in H.
    specialize (H p). rewrite in_seq in H.
    specialize (H ltac:(lia)).
    apply orb_true_iff in H as [H|H]; [eapply bool_decide_eq_true_1, H|].
    apply andb_true_iff in H as [H1 H2].
    apply Nat.leb_le in H1. apply Nat.ltb_lt in H2. lia.
  - rewrite !lookup_ge_None_2; [done|rewrite <- unused_length; lia|lia].
Qed.

Lemma unused_slice lo hi :
  (hi <= 12)%nat -> slice buf1 lo hi = slice buf2 lo hi.
Proof using Hdiff.
  intros H. apply slice_agree. intros p Hp. apply unused_agree. lia.
Qed.

Lemma unused_field lo : (lo + 4 <= 12)%nat -> field buf1 lo = field buf2 lo.
Proof using Hdiff. intros H. unfold field. by rewrite unused_slice. Qed.

Lemma unused_drop k :
  (Z.to_nat (sequence_offset_of buf1) <= k)%nat -> drop k buf1 = drop k buf2.
Proof using Hdiff.
  intros Hk. apply list_eq. intros i. rewrite !lookup_drop.
  apply unused_agree. lia.
Qed.

(** The two files decode alike. *)
Lemma unused_init_alike :
  outcomes_alike alike (init args buf1) (init args buf2).
Proof using Hdiff Hafter.
  unfold init.
  rewrite <- (unused_slice 0 4) by lia.
  rewrite <- (unused_field 4), <- (unused_field 8) by lia.
  change (slice buf1 0 4) with (take 4 buf1).
  eapply (outcomes_alike_bind (fun a1 a2 => a1 = a2 /\ a1 = take 4 buf1)).
  { unfold struct_unpack_4s. destruct (_ =? _)%nat; by split. }
  intros magic ? [<- ->].
  eapply outcomes_alike_bind; [apply outcomes_alike_refl|]. intros [] ? _.
  eapply (outcomes_alike_bind
            (fun a1 a2 => a1.2 = a2.2 /\ a1.2 = sequence_offset_of buf1)).
  { unfold variant_fields, sequence_offset_of.
    destruct (bool_decide (take 4 buf1 = FC14)); [by split|].
    destruct (bool_decide (take 4 buf1 = SMOD)); by split. }
  intros [[wt1 sd1] off1] [[wt2 sd2] off2] [Heq Hoff]. simpl in Heq, Hoff.
  subst off2 off1.
  assert (forall l acc,
            for_each (read_sequence args buf2 (sequence_offset_of buf1)) l acc
            = for_each (read_sequence args buf1 (sequence_offset_of buf1)) l acc)
    as ->.
  { intros l acc. apply for_each_ext. intros sqs i _. unfold read_sequence.
    by rewrite unused_drop by lia. }
  eapply outcomes_alike_bind; [apply outcomes_alike_refl|]. intros sqs ? <-.
  eapply outcomes_alike_bind; [apply outcomes_alike_refl|]. intros [] ? _.
  apply outcomes_alike_ret.
  split; cbn [FutureComposerModule.args sequences used_patterns]; try done.
  - intros key. unfold block_of, block_offset. cbn [contents pattern_offset].
    apply slice_agree. intros p Hp. apply unused_agree.
    pose proof (pat_num_of_range key).
    pose proof (sequence_offset_of_ge buf1). lia.
  - apply Forall_Forall2_diag, Forall_forall. done.
Qed.

End UnusedBytes.

(** X7: the header fields after the pattern offset (the size of the
    pattern table, the offsets and sizes of the frequency, volume and
    sample tables, the field at byte 36), the sample table and, in an FC14
    file, bytes 100 to 179 are decoded or skipped, and never used: when
    the pattern table does not start before the sequence table, two files
    of the same length that differ only in bytes 12 up to the start of the
    sequence table give the same run, line for line. *)
Theorem unused_header_bytes_are_ignored (args : Args.t)
    (buf1 buf2 : list byte) :
  differ_only_in_unused buf1 buf2 = true ->
  sequence_offset_of buf1 <= field buf1 8 ->
  main args buf1 = main args buf2.
Proof.
  intros Hdiff Hafter. apply outcomes_alike_eq. unfold main.
  eapply outcomes_alike_bind; [by apply unused_init_alike|].
  intros m1 m2 Hm.
  rewrite (convert_sequences_alike _ _ Hm), (convert_patterns_alike _ _ Hm).
  apply outcomes_alike_refl.
Qed.

Lemma unused_header_bytes_are_ignored_song :
  Samples.song <> song_with_sample
  /\ main Args.default Samples.song = main Args.default song_with_sample
  /\ (main Args.default Samples.song).2 = Ok tt.
Proof.
  split; [by vm_compute|].
  split; [|vm_compute; reflexivity].
  apply unused_header_bytes_are_ignored; [vm_compute; reflexivity|].
  vm_compute. discriminate.
Defined.


(** ** The window of sequences *)

Lemma filter_range (lo hi n : nat) :
  List.filter (fun i => (lo <=? i)%nat && (i <? hi)%nat) (seq 0 n)
  = seq lo (Nat.min hi n - lo).
Proof.
  induction n as [|n IH]; [by rewrite Nat.min_0_r|].
  rewrite seq_S, List.filter_app, IH. cbn [List.filter Nat.add].
  destruct (lo <=? n)%nat eqn:E1; [destruct (n <? hi)%nat eqn:E2|]; cbn [andb].
  - apply Nat.leb_le in E1. apply Nat.ltb_lt in E2.
    replace (Nat.min hi (S n) - lo)%nat with (S (Nat.min hi n - lo)) by lia.
    rewrite seq_S. do 2 f_equal. lia.
  - apply Nat.ltb_ge in E2. rewrite app_nil_r. f_equal. lia.
  - apply Nat.leb_gt in E1. rewrite app_nil_r.
    replace (Nat.min hi (S n) - lo)%nat with 0%nat by lia.
    replace (Nat.min hi n - lo)%nat with 0%nat by lia. done.
Qed.

(** The window is a range of indices. *)
Lemma window_range args num :
  window args num
  = seq (Z.to_nat (Args.start args))
      ((if Args.end_ args =? -1 then Z.to_nat num
        else Nat.min (Z.to_nat num) (Z.to_nat (Args.end_ args + 1)))
       - Z.to_nat (Args.start args)).
Proof.
  unfold window.
  rewrite (filter_ext_in _
             (fun i => (Z.to_nat (Args.start args) <=? i)%nat
                       && (i <? (if (Args.end_ args =? -1)%Z then Z.to_nat num
                                 else Z.to_nat (Args.end_ args + 1)%Z))%nat)).
  - rewrite filter_range. f_equal. destruct (Args.end_ args =? -1); lia.
  - intros i Hi. apply in_seq in Hi. unfold in_window.
    apply eq_true_iff_eq.
    rewrite !andb_true_iff, orb_true_iff, Z.geb_le, Z.leb_le, Z.eqb_eq,
      Nat.leb_le, Nat.ltb_lt.
    destruct (Args.end_ args =? -1) eqn:E; lia.
Qed.

(** X8: the sequences of the module are the records of a range of
    indices: from [--start] (a negative value counts as 0) to [--end]
    included, or to the last record when [--end] is -1 or beyond the
    table; the range is empty when [--end] is below [--start] or below -1.
    With the default arguments every record is decoded. *)
Theorem window_is_a_range (args : Args.t) (buf : list byte)
    (out : list string) (m : FutureComposerModule.t) :
  init args buf = (out, Ok m) ->
  let num := Z.to_nat (sequence_data_size m / 13) in
  let first := Z.to_nat (Args.start args) in
  let stop := if Args.end_ args =? -1 then num
              else Nat.min num (Z.to_nat (Args.end_ args + 1)) in
  length (sequences m) = (stop - first)%nat
  /\ (forall k sq, sequences m !! k = Some sq ->
        Sequence.init
          (drop (Z.to_nat (sequence_offset m) + (first + k) * 13)%nat buf)
        = ([], Ok sq))
  /\ (Args.start args <= 0 -> Args.end_ args = -1 ->
      length (sequences m) = num).
Proof.
  intros H num first stop. pose proof (init_decoded _ _ _ _ H) as D.
  pose proof (dec_sequences _ _ _ _ D) as HF.
  rewrite window_range in HF. rewrite <- (dec_size _ _ _ _ D) in HF.
  fold num first in HF. fold stop in HF.
  assert (length (sequences m) = (stop - first)%nat) as Hlen.
  { apply Forall2_length in HF. by rewrite length_seq in HF. }
  split; [done|]. split.
  - intros k sq Hk.
    destruct (Forall2_lookup_r _ _ _ _ _ HF Hk) as (i & Hi & Hs).
    apply lookup_seq in Hi as [-> _]. exact Hs.
  - intros Hstart Hend. rewrite Hlen. unfold stop, first.
    rewrite Hend. cbn. lia.
Qed.

Lemma window_is_a_range_song :
  exists out m,
    init (Args.mk 1 5 10 0) Samples.song = (out, Ok m)
    /\ length (sequences m) = 1%nat
    /\ forall sq, sequences m !! 0%nat = Some sq ->
         Sequence.init (drop 113 Samples.song) = ([], Ok sq).
Proof.
  sample_module (Args.mk 1 5 10 0) Samples.song m H.
  destruct (window_is_a_range _ _ _ _ H) as (Hlen & Hrec & _).
  exists [], m. split; [exact H|]. split; [exact Hlen|].
  intros sq Hsq. exact (Hrec 0%nat sq Hsq).
Defined.

(** X9: with a known tag and no record in the window, the run prints
    the cartridge header, ["__sfx__"] and ["__music__"], and ends
    normally, whatever else the file holds or lacks: a file that consists
    of the tag alone gives this empty cartridge. *)
Theorem empty_window_gives_empty_cartridge (args : Args.t)
    (buf : list byte) :
  take 4 buf = SMOD \/ take 4 buf = FC14 ->
  window args (field buf 4 / 13) = [] ->
  main args buf = (header ++ ["__sfx__"; "__music__"], Ok tt).
Proof.
  intros Hmagic Hw.
  destruct (init_total args buf Hmagic) as (out & m & H).
  { unfold records_in_range. by rewrite Hw. }
  pose proof (init_decoded _ _ _ _ H) as D.
  pose proof (dec_sequences _ _ _ _ D) as HF. rewrite Hw in HF.
  apply Forall2_nil_inv_l in HF.
  pose proof (dec_used _ _ _ _ D) as Hu. rewrite HF in Hu. cbn in Hu.
  pose proof (dec_out _ _ _ _ D) as Ho. rewrite Hu in Ho. cbn in Ho.
  subst out.
  rewrite (main_spec _ _ _ _ H); [|unfold blocks_readable; by rewrite Hu].
  unfold printed. rewrite Hu, HF. reflexivity.
Qed.

Lemma empty_window_gives_empty_cartridge_tag_alone :
  main Args.default SMOD = (header ++ ["__sfx__"; "__music__"], Ok tt).
Proof.
  apply empty_window_gives_empty_cartridge; [by left|reflexivity].
Defined.

(** ** The size of the set of used patterns *)

Lemma length_seen_le keys : (length (seen keys) <= length keys)%nat.
Proof.
  induction keys as [|k keys IH] using rev_ind; [done|].
  rewrite seen_snoc, length_app. cbn [length]. unfold add_key.
  case_bool_decide; rewrite ?length_app; cbn [length]; lia.
Qed.

Lemma length_voice_keys sqs :
  (forall sq, sq ∈ sqs -> sequence_shape sq) ->
  length (voice_keys sqs) = (4 * length sqs)%nat.
Proof.
  unfold voice_keys. rewrite length_map.
  induction sqs as [|sq sqs IH]; intros Hs; [done|].
  cbn [map concat]. rewrite length_app, IH by (intros; apply Hs; by right).
  destruct (Hs sq) as (? & ? & ? & ? & -> & _); [left|]. cbn [length]. lia.
Qed.

Lemma voice_bytes_key v : voice_bytes v -> 0 <= Voice.hash v < 2 ^ 24.
Proof. intros (? & ? & ?). unfold Voice.hash. lia. Qed.

(** X10: the set of used patterns has at most four entries per sequence
    of the window, each of them a number below 2^24; with at most 16
    sequences in the window the constructor prints no warning. *)
Theorem used_patterns_bound (args : Args.t) (buf : list byte)
    (out : list string) (m : FutureComposerModule.t) :
  init args buf = (out, Ok m) ->
  (length (used_patterns m) <= 4 * length (sequences m))%nat
  /\ (forall key, key ∈ used_patterns m -> 0 <= key < 2 ^ 24)
  /\ ((length (sequences m) <= 16)%nat -> out = []).
Proof.
  intros H. pose proof (init_decoded _ _ _ _ H) as D.
  assert (length (used_patterns m) <= 4 * length (sequences m))%nat as Hlen.
  { rewrite (dec_used _ _ _ _ D), collect_used_seen.
    rewrite <- length_voice_keys by (intros; eapply decoded_shapes; eauto).
    apply length_seen_le. }
  split; [done|]. split.
  - intros key Hkey.
    rewrite (dec_used _ _ _ _ D), collect_used_seen, elem_of_seen in Hkey.
    unfold voice_keys in Hkey.
    apply list_elem_of_fmap in Hkey as (v & -> & Hv).
    apply elem_of_concat in Hv as (vs & Hv & Hvs).
    apply list_elem_of_fmap in Hvs as (sq & -> & Hsq).
    apply voice_bytes_key. eapply shape_voice_bytes; [|exact Hv].
    eapply decoded_shapes; eauto.
  - intros H16. rewrite (dec_out _ _ _ _ D).
    replace (64 <? length (used_patterns m))%nat with false; [done|].
    symmetry. apply Nat.ltb_ge. lia.
Qed.

Lemma used_patterns_bound_song :
  exists out m,
    init Args.default Samples.song = (out, Ok m)
    /\ length (sequences m) = 2%nat
    /\ (length (used_patterns m) <= 8)%nat /\ out = [].
Proof.
  sample_module Args.default Samples.song m H.
  destruct (used_patterns_bound _ _ _ _ H) as (Hlen & _ & Hout).
  exists [], m. split; [exact H|]. split; [reflexivity|].
  split; [exact Hlen|reflexivity].
Defined.
(** ** Patterns that differ in the instrument transpose only *)

(** One sequence whose channels 0 and 1 play pattern 1 with the
    instrument transposes 0 and 5. *)
Definition two_instruments : list byte :=
  Samples.smod_file [[1; 0; 0;  1; 0; 5;  0; 0; 0;  0; 0; 0;  6]]
    (Samples.block [] ++ Samples.block [36; 2]).

(** X11: the instrument transpose of a voice is part of its key and is
    not used by the conversion: two voices of the window with the same
    pattern number and note transpose and different instrument transposes
    have two entries in the set of used patterns, whose conversions read
    the same bytes, print the same warnings and give the same pattern;
    the cartridge holds that pattern twice. *)
Theorem instrument_transpose_is_not_converted (args : Args.t)
    (buf : list byte) (out : list string) (m : FutureComposerModule.t)
    (sq1 sq2 : Sequence.t) (v1 v2 : Voice.t) :
  init args buf = (out, Ok m) ->
  sq1 ∈ sequences m -> sq2 ∈ sequences m ->
  v1 ∈ Sequence.voices sq1 -> v2 ∈ Sequence.voices sq2 ->
  Voice.pattern v1 = Voice.pattern v2 ->
  Voice.transpose v1 = Voice.transpose v2 ->
  Voice.sound_transpose v1 <> Voice.sound_transpose v2 ->
  convert_pattern m (Voice.hash v1) = convert_pattern m (Voice.hash v2)
  /\ exists i j,
       i <> j
       /\ used_patterns m !! i = Some (Voice.hash v1)
       /\ used_patterns m !! j = Some (Voice.hash v2)
       /\ forall o pats, convert_patterns m = (o, Ok pats) ->
            exists p, pats !! i = Some p /\ pats !! j = Some p.
Proof.
  intros H Hsq1 Hsq2 Hv1 Hv2 Hp Ht Hs.
  pose proof (init_decoded _ _ _ _ H) as D.
  pose proof (shape_voice_bytes _ _ (decoded_shapes _ _ _ _ _ D Hsq1) Hv1) as B1.
  pose proof (shape_voice_bytes _ _ (decoded_shapes _ _ _ _ _ D Hsq2) Hv2) as B2.
  assert (convert_pattern m (Voice.hash v1) = convert_pattern m (Voice.hash v2))
    as Hconv.
  { unfold convert_pattern.
    rewrite !(hash_pat_num v1), !(hash_pat_num v2), !(hash_pat_transpose v1),
      !(hash_pat_transpose v2) by done.
    by rewrite Hp, Ht. }
  split; [done|].
  pose proof (decoded_key_used _ _ _ _ _ _ D Hsq1 Hv1) as Hk1.
  pose proof (decoded_key_used _ _ _ _ _ _ D Hsq2 Hv2) as Hk2.
  destruct (proj1 (list_elem_of_lookup _ _) Hk1) as [i Hi].
  destruct (proj1 (list_elem_of_lookup _ _) Hk2) as [j Hj].
  exists i, j. split.
  { intros ->. rewrite Hi in Hj. injection Hj as Hj.
    apply (hash_inj v1 v2 B1 B2) in Hj as (_ & _ & Hj). exact (Hs Hj). }
  split; [done|]. split; [done|]. intros o pats Hc.
  apply convert_patterns_Ok_inv in Hc as (Hr & _ & ->).
  exists (converted m (Voice.hash v1)).
  change (map ?f ?l) with (f <$> l). rewrite !list_lookup_fmap, Hi, Hj.
  split; [done|]. cbn [fmap option_fmap option_map]. f_equal.
  rewrite !convert_pattern_spec in Hconv by (by apply blocks_readable_key).
  pose proof (f_equal (fun r => match r.2 with
                                | Ok p => p
                                | Raise _ => converted m (Voice.hash v1)
                                end) Hconv) as Heq.
  change (converted m (Voice.hash v1) = converted m (Voice.hash v2)) in Heq.
  by rewrite Heq.
Qed.

Lemma instrument_transpose_is_not_converted_two :
  exists out m,
    init Args.default two_instruments = (out, Ok m)
    /\ take 2 (used_patterns m) = [1; 327681]
    /\ convert_pattern m 1 = convert_pattern m 327681.
Proof.
  sample_module Args.default two_instruments m H.
  exists [], m. split; [exact H|]. split; [reflexivity|].
  edestruct (fun sq => instrument_transpose_is_not_converted _ _ _ _ sq sq
               (Voice.mk 0 1 0 0) (Voice.mk 1 1 0 5) H) as [Hconv _];
    [| | | |reflexivity|reflexivity|by vm_compute|exact Hconv];
    vm_compute; repeat constructor.
Defined.

(** ** Files that convert *)

(** One sequence over patterns 1 and 255, in a file that holds the 256
    blocks. *)
Definition complete_song : list byte :=
  Samples.smod_file [[1; 0; 0;  255; 0; 0;  0; 0; 0;  255; 1; 0;  6]]
    (Samples.block [36; 1] ++ replicate (255 * 64) 0).

(** X12: a file with a known tag that holds its whole sequence table
    and, from the pattern offset on, the 64 bytes of each of the 256
    pattern numbers converts whatever the arguments are: the run ends
    normally, with exit status 0. *)
Theorem complete_file_converts (args : Args.t) (buf : list byte) :
  take 4 buf = SMOD \/ take 4 buf = FC14 ->
  sequence_offset_of buf + 13 * (field buf 4 / 13) <= Z.of_nat (length buf) ->
  field buf 8 + 256 * 64 <= Z.of_nat (length buf) ->
  exists out m,
    init args buf = (out, Ok m)
    /\ main args buf = (printed m out, Ok tt)
    /\ exit_status (main args buf).2 = 0.
Proof.
  intros Hmagic Hseq Hpat.
  pose proof (sequence_offset_of_ge buf) as Hoff.
  destruct (init_total args buf Hmagic) as (out & m & H).
  { unfold records_in_range. apply forallb_forall. intros i Hi.
    apply list_elem_of_In, elem_of_window in Hi as (Hi & _).
    apply Nat.leb_le. lia. }
  pose proof (init_decoded _ _ _ _ H) as D.
  assert (blocks_readable m = true) as Hr.
  { unfold blocks_readable. apply forallb_forall. intros key _.
    pose proof (block_offset_nonneg _ _ _ _ key D) as Hpos.
    apply block_in_range_readable; [|done].
    unfold block_offset in *. pose proof (pat_num_of_range key).
    rewrite (dec_pattern_offset _ _ _ _ D) in *.
    rewrite (dec_contents _ _ _ _ D). lia. }
  exists out, m. split; [done|].
  rewrite (main_spec _ _ _ _ H Hr). done.
Qed.

Lemma complete_file_converts_song :
  Z.of_nat (length complete_song) = 16497
  /\ exit_status (main (Args.mk 0 (-1) 10 (-3)) complete_song).2 = 0.
Proof.
  split; [vm_compute; reflexivity|].
  destruct (complete_file_converts (Args.mk 0 (-1) 10 (-3)) complete_song)
    as (out & m & _ & _ & Hexit);
    [by left|vm_compute; discriminate|vm_compute; discriminate|exact Hexit].
Defined.

(** ** The layout of the output *)

Lemma prefix_app (s t : string) : String.prefix s (s +:+ t) = true.
Proof.
  induction s as [|c s IH]; [by destruct t|].
  rewrite string_app_cons. cbn [String.prefix].
  by destruct (ascii_dec c c).
Qed.

Lemma pattern_line_prefix p :
  String.prefix "01" (PICO8Pattern.format p) = true.
Proof. rewrite pattern_format_spec. apply prefix_app. Qed.

Lemma sequence_line_prefix used sq :
  String.prefix "00 " (sequence_line used sq) = true.
Proof.
  unfold sequence_line. rewrite (fold_left_append (fun code => code)).
  apply prefix_app.
Qed.

(** X13: what a run that ends normally has printed is, in this order:
    the warnings, the nine lines of the header, ["__sfx__"], one line per
    used pattern, ["__music__"], one line per sequence of the window.
    Every warning is printed before the first line of the cartridge, to
    the same output: the output starts with the cartridge header exactly
    when no warning was printed. *)
Theorem warnings_come_first (args : Args.t) (buf : list byte)
    (o : list string) (u : unit) :
  main args buf = (o, Ok u) ->
  exists out m warnings patterns lines,
    init args buf = (out, Ok m)
    /\ o = warnings ++ header ++ ["__sfx__"] ++ patterns ++ ["__music__"]
           ++ lines
    /\ length header = 9%nat
    /\ length patterns = length (used_patterns m)
    /\ length lines = length (sequences m)
    /\ (forall line, line ∈ warnings -> String.prefix "Warning: " line = true)
    /\ (forall line, line ∈ patterns -> String.prefix "01" line = true)
    /\ (forall line, line ∈ lines -> String.prefix "00 " line = true)
    /\ (o !! 0%nat = Some "pico-8 cartridge // http://www.pico-8.com"
        <-> warnings = []).
Proof.
  intros Hmain. destruct (main_Ok_inv _ _ _ _ Hmain) as (out & m & H & Hr).
  pose proof (init_decoded _ _ _ _ H) as D.
  rewrite (main_spec _ _ _ _ H Hr) in Hmain. injection Hmain as <-.
  exists out, m, (out ++ flat_map (pattern_warnings m) (used_patterns m)),
    (map (fun key => PICO8Pattern.format (converted m key)) (used_patterns m)),
    (map (sequence_line (used_patterns m)) (sequences m)).
  assert (forall line,
            line ∈ out ++ flat_map (pattern_warnings m) (used_patterns m) ->
            String.prefix "Warning: " line = true) as Hw.
  { intros line Hl. apply elem_of_app in Hl as [Hl|Hl].
    - rewrite (dec_out _ _ _ _ D) in Hl.
      destruct (64 <? _)%nat; [|by apply elem_of_nil in Hl].
      apply list_elem_of_singleton in Hl. by subst.
    - apply elem_of_flat_map in Hl as (key & _ & Hl).
      apply pattern_warnings_kind in Hl as [-> | ->]; reflexivity. }
  split; [done|]. split; [unfold printed; by rewrite <- app_assoc|].
  split; [reflexivity|]. rewrite !length_map.
  split; [done|]. split; [done|]. split; [done|]. split; [|split].
  - intros line Hl. apply list_elem_of_fmap in Hl as (key & -> & _).
    apply pattern_line_prefix.
  - intros line Hl. apply list_elem_of_fmap in Hl as (sq & -> & _).
    apply sequence_line_prefix.
  - unfold printed. rewrite app_assoc.
    destruct (out ++ flat_map (pattern_warnings m) (used_patterns m))
      as [|w ws] eqn:E.
    + split; [done|]. intros _. reflexivity.
    + split; [|done]. cbn. intros [= ->].
      specialize (Hw _ ltac:(left)). discriminate Hw.
Qed.

Lemma warnings_come_first_song :
  exists out m warnings patterns lines,
    init Args.default Samples.song = (out, Ok m)
    /\ (main Args.default Samples.song).1
       = warnings ++ header ++ ["__sfx__"] ++ patterns ++ ["__music__"]
         ++ lines
    /\ length warnings = 2%nat /\ length patterns = 3%nat
    /\ length lines = 2%nat.
Proof.
  destruct (warnings_come_first Args.default Samples.song
              (main Args.default Samples.song).1 tt)
    as (out & m & ws & ps & ls & H & Ho & _ & Hp & Hl & _);
    [vm_compute; reflexivity|].
  exists out, m, ws, ps, ls. split; [exact H|]. split; [exact Ho|].
  assert (length (main Args.default Samples.song).1 = 18%nat) as Hlen
    by (vm_compute; reflexivity).
  vm_compute in H. injection H as <- <-.
  cbn in Hp, Hl. rewrite Ho, !length_app, Hp, Hl in Hlen. cbn in Hlen.
  repeat split; (done || lia).
Defined.
(** ** Reading the codes back *)

Lemma fmt_02x_inj (a b : Z) :
  0 <= a < 256 -> 0 <= b < 256 -> fmt_02x a = fmt_02x b -> a = b.
Proof.
  intros Ha Hb Heq.
  pose proof (Z_range_check
                (fun x => forallb
                   (fun j => negb (String.eqb (fmt_02x x) (fmt_02x (Z.of_nat j)))
                             || (x =? Z.of_nat j))
                   (seq 0 256))
                256 ltac:(by vm_compute) a ltac:(lia)) as H.
  rewrite forallb_forall in H. specialize (H (Z.to_nat b)).
  rewrite in_seq, Z2Nat.id in H by lia. specialize (H ltac:(lia)).
  apply orb_true_iff in H as [H|H]; [|by apply Z.eqb_eq in H].
  apply negb_true_iff, String.eqb_neq in H. done.
Qed.

(** X14: when the constructor printed no warning (at most 64 used
    patterns), the channel codes of the sequence lines can be read back:
    two channels have the same code only when both are disabled and are
    the same channel, or both play and their voices have the same key.
    A code tells whether the channel plays, and which pattern. *)
Theorem channel_codes_are_unambiguous (args : Args.t) (buf : list byte)
    (m : FutureComposerModule.t) (cseqs : list PICO8Sequence.t)
    (s1 s2 c1 c2 : nat) (sq1 sq2 : Sequence.t) (cs1 cs2 : PICO8Sequence.t)
    (v1 v2 : Voice.t) (code : string) :
  init args buf = ([], Ok m) ->
  convert_sequences m = ([], Ok cseqs) ->
  sequences m !! s1 = Some sq1 -> sequences m !! s2 = Some sq2 ->
  cseqs !! s1 = Some cs1 -> cseqs !! s2 = Some cs2 ->
  Sequence.voices sq1 !! c1 = Some v1 -> Sequence.voices sq2 !! c2 = Some v2 ->
  PICO8Sequence.channel_code cs1 c1 = ([], Ok code) ->
  PICO8Sequence.channel_code cs2 c2 = ([], Ok code) ->
  (Voice.pattern v1 = 0 /\ Voice.pattern v2 = 0 /\ c1 = c2)
  \/ (Voice.pattern v1 <> 0 /\ Voice.pattern v2 <> 0
      /\ Voice.hash v1 = Voice.hash v2).
Proof.
  intros H Hc Hs1 Hs2 Hcs1 Hcs2 Hv1 Hv2 Hcode1 Hcode2.
  pose proof (init_decoded _ _ _ _ H) as D.
  rewrite (convert_sequences_spec _ _ _ _ D) in Hc. injection Hc as <-.
  change (map ?f ?l) with (f <$> l) in Hcs1, Hcs2.
  rewrite list_lookup_fmap, Hs1 in Hcs1. rewrite list_lookup_fmap, Hs2 in Hcs2.
  injection Hcs1 as <-. injection Hcs2 as <-.
  set (used := used_patterns m) in *.
  rewrite (channel_code_slot _ c1 (slot_of used v1)) in Hcode1
    by (cbn; change (map ?f ?l) with (f <$> l); by rewrite list_lookup_fmap, Hv1).
  rewrite (channel_code_slot _ c2 (slot_of used v2)) in Hcode2
    by (cbn; change (map ?f ?l) with (f <$> l); by rewrite list_lookup_fmap, Hv2).
  injection Hcode1 as <-. injection Hcode2 as Heq.
  assert (sq1 ∈ sequences m) as Hin1 by (eapply list_elem_of_lookup_2, Hs1).
  assert (sq2 ∈ sequences m) as Hin2 by (eapply list_elem_of_lookup_2, Hs2).
  assert (v1 ∈ Sequence.voices sq1) as Hvin1 by (eapply list_elem_of_lookup_2, Hv1).
  assert (v2 ∈ Sequence.voices sq2) as Hvin2 by (eapply list_elem_of_lookup_2, Hv2).
  pose proof (decoded_shapes _ _ _ _ _ D Hin1) as Sh1.
  pose proof (decoded_shapes _ _ _ _ _ D Hin2) as Sh2.
  pose proof (shape_voice_bytes _ _ Sh1 Hvin1) as B1.
  pose proof (shape_voice_bytes _ _ Sh2 Hvin2) as B2.
  assert (c1 < 4)%nat as Hc1.
  { destruct Sh1 as (? & ? & ? & ? & E & _). apply lookup_lt_Some in Hv1.
    by rewrite E in Hv1. }
  assert (c2 < 4)%nat as Hc2.
  { destruct Sh2 as (? & ? & ? & ? & E & _). apply lookup_lt_Some in Hv2.
    by rewrite E in Hv2. }
  assert (length used <= 64)%nat as Hlen.
  { pose proof (dec_out _ _ _ _ D) as Ho. fold used in Ho.
    destruct (64 <? length used)%nat eqn:E; [discriminate Ho|].
    by apply Nat.ltb_ge in E. }
  destruct (slot_of_cases used v1 B1 (decoded_key_used _ _ _ _ _ _ D Hin1 Hvin1))
    as [[Hz1 E1]|[Hnz1 (i & _ & Hi & E1)]];
    destruct (slot_of_cases used v2 B2 (decoded_key_used _ _ _ _ _ _ D Hin2 Hvin2))
    as [[Hz2 E2]|[Hnz2 (j & _ & Hj & E2)]];
    rewrite E1, E2 in Heq; cbn [slot_code] in Heq;
    try (pose proof (lookup_lt_Some _ _ _ Hi)); try (pose proof (lookup_lt_Some _ _ _ Hj));
    apply fmt_02x_inj in Heq; try lia.
  right. repeat split; try done.
  apply Nat2Z.inj in Heq. subst j. congruence.
Qed.
Lemma channel_codes_are_unambiguous_song :
  exists m,
    init Args.default Samples.song = ([], Ok m)
    /\ ((Voice.pattern (Voice.mk 0 1 0 0) = 0
         /\ Voice.pattern (Voice.mk 2 1 0 0) = 0 /\ 0%nat = 2%nat)
        \/ (Voice.pattern (Voice.mk 0 1 0 0) <> 0
            /\ Voice.pattern (Voice.mk 2 1 0 0) <> 0
            /\ Voice.hash (Voice.mk 0 1 0 0) = Voice.hash (Voice.mk 2 1 0 0))).
Proof.
  sample_module Args.default Samples.song m H.
  exists m. split; [exact H|].
  eapply (channel_codes_are_unambiguous Args.default Samples.song m _
            0 1 0 2 _ _ _ _ (Voice.mk 0 1 0 0) (Voice.mk 2 1 0 0) "00" H);
    vm_compute; reflexivity.
Defined.

(** ** Extending the window *)

Lemma list_index_app_l x l1 l2 i :
  list_index x l1 = Some i -> list_index x (l1 ++ l2) = Some i.
Proof.
  revert i. induction l1 as [|y l1 IH]; intros i; simpl; [done|].
  case_decide; [done|].
  destruct (list_index x l1) as [k|]; [|done].
  intros [= <-]. by rewrite (IH k eq_refl).
Qed.

Lemma Forall2_prefix {A B} (P : A -> B -> Prop) l1 l2 s1 s2 :
  (forall a b1 b2, P a b1 -> P a b2 -> b1 = b2) ->
  Forall2 P l1 s1 -> Forall2 P (l1 ++ l2) s2 -> s1 `prefix_of` s2.
Proof.
  intros Hf H1 H2.
  apply Forall2_app_inv_l in H2 as (sa & sb & Ha & _ & ->).
  exists sb. f_equal. revert sa Ha.
  induction H1 as [|a b l s Hab _ IH]; intros sa Ha; inversion Ha; subst;
    [done|].
  f_equal; eauto.
Qed.

Lemma voice_keys_app sqs1 sqs2 :
  voice_keys (sqs1 ++ sqs2) = voice_keys sqs1 ++ voice_keys sqs2.
Proof. unfold voice_keys. by rewrite map_app, concat_app, map_app. Qed.

(** X15: on the same file and with the same [--start], a window that
    ends later decodes the same sequences followed by more, and its set of
    used patterns starts with the set of the shorter window: every used
    pattern keeps its index. *)
Theorem longer_window_keeps_indices (args1 args2 : Args.t)
    (buf : list byte) (out1 out2 : list string)
    (m1 m2 : FutureComposerModule.t) :
  init args1 buf = (out1, Ok m1) ->
  init args2 buf = (out2, Ok m2) ->
  Args.start args1 = Args.start args2 ->
  Args.end_ args2 = -1
  \/ (Args.end_ args1 <> -1 /\ Args.end_ args1 <= Args.end_ args2) ->
  sequences m1 `prefix_of` sequences m2
  /\ used_patterns m1 `prefix_of` used_patterns m2
  /\ (forall key i, list_index key (used_patterns m1) = Some i ->
        list_index key (used_patterns m2) = Some i).
Proof.
  intros H1 H2 Hstart Hend.
  pose proof (init_decoded _ _ _ _ H1) as D1.
  pose proof (init_decoded _ _ _ _ H2) as D2.
  pose proof (dec_sequences _ _ _ _ D1) as F1.
  pose proof (dec_sequences _ _ _ _ D2) as F2.
  rewrite (decoded_sequence_offset _ _ _ _ D1) in F1.
  rewrite (decoded_sequence_offset _ _ _ _ D2) in F2.
  rewrite window_range in F1, F2. rewrite <- Hstart in F2.
  set (num := Z.to_nat (field buf 4 / 13)) in *.
  set (first := Z.to_nat (Args.start args1)) in *.
  set (n1 := ((if (Args.end_ args1 =? -1)%Z then num
               else Nat.min num (Z.to_nat (Args.end_ args1 + 1)%Z)) - first)%nat)
    in *.
  set (n2 := ((if (Args.end_ args2 =? -1)%Z then num
               else Nat.min num (Z.to_nat (Args.end_ args2 + 1)%Z)) - first)%nat)
    in *.
  assert (n1 <= n2)%nat as Hle.
  { unfold n1, n2.
    destruct (Args.end_ args1 =? -1) eqn:E1, (Args.end_ args2 =? -1) eqn:E2;
      lia. }
  replace n2 with (n1 + (n2 - n1))%nat in F2 by lia. rewrite seq_app in F2.
  assert (sequences m1 `prefix_of` sequences m2) as [more Hmore].
  { eapply Forall2_prefix; [|exact F1|exact F2].
    intros i s s' Hs Hs'. cbv beta in Hs, Hs'. congruence. }
  assert (used_patterns m1 `prefix_of` used_patterns m2) as [rest Hrest].
  { rewrite (dec_used _ _ _ _ D1), (dec_used _ _ _ _ D2), Hmore.
    rewrite !collect_used_seen, voice_keys_app, seen_app.
    apply fold_add_key_prefix. }
  split; [by exists more|]. split; [by exists rest|].
  intros key i Hi. rewrite Hrest. by apply list_index_app_l.
Qed.

Lemma longer_window_keeps_indices_song :
  exists out1 out2 m1 m2,
    init (Args.mk 0 0 10 0) Samples.song = (out1, Ok m1)
    /\ init Args.default Samples.song = (out2, Ok m2)
    /\ length (sequences m1) = 1%nat /\ length (sequences m2) = 2%nat
    /\ used_patterns m1 `prefix_of` used_patterns m2.
Proof.
  sample_module (Args.mk 0 0 10 0) Samples.song m1 H1.
  sample_module Args.default Samples.song m2 H2.
  exists [], [], m1, m2. split; [exact H1|]. split; [exact H2|].
  split; [reflexivity|]. split; [reflexivity|].
  destruct (longer_window_keeps_indices _ _ _ _ _ _ _ H1 H2) as (_ & Hp & _);
    [reflexivity|by left|exact Hp].
Defined.

(** ** Reading the rows back *)

(** The rows [convert_patterns] can store: none, or a note in 0..63, an
    instrument in 0..7, volume 4 and effect 0. *)
Definition stored_row (row : option PICO8Pattern.Row) : Prop :=
  row = None
  \/ exists n ins,
       0 <= n <= 63 /\ 0 <= ins <= 7
       /\ row = Some (PICO8Pattern.mkRow (Some n) ins 4 0).

Lemma row_code_check (z : Z) :
  0 <= z < 512 ->
  PICO8Pattern.row_code
    (Some (PICO8Pattern.mkRow (Some (z / 8)) (z mod 8) 4 0)) <> "00000"
  /\ forall z', 0 <= z' < 512 ->
       PICO8Pattern.row_code
         (Some (PICO8Pattern.mkRow (Some (z / 8)) (z mod 8) 4 0))
       = PICO8Pattern.row_code
           (Some (PICO8Pattern.mkRow (Some (z' / 8)) (z' mod 8) 4 0)) ->
       z = z'.
Proof.
  intros Hz.
  pose (code := fun z => PICO8Pattern.row_code
                  (Some (PICO8Pattern.mkRow (Some (z / 8)) (z mod 8) 4 0))).
  pose proof (Z_range_check
                (fun x => negb (String.eqb (code x) "00000")
                   && forallb
                        (fun j => negb (String.eqb (code x) (code (Z.of_nat j)))
                                  || (x =? Z.of_nat j))
                        (seq 0 512))
                512 ltac:(by vm_compute) z ltac:(lia)) as H.
  apply andb_true_iff in H as [H0 H]. split.
  - by apply negb_true_iff, String.eqb_neq in H0.
  - intros z' Hz' Heq. rewrite forallb_forall in H. specialize (H (Z.to_nat z')).
    rewrite in_seq, Z2Nat.id in H by lia. specialize (H ltac:(lia)).
    apply orb_true_iff in H as [H|H]; [|by apply Z.eqb_eq in H].
    apply negb_true_iff, String.eqb_neq in H. done.
Qed.

Lemma stored_row_code_inj row1 row2 :
  stored_row row1 -> stored_row row2 ->
  PICO8Pattern.row_code row1 = PICO8Pattern.row_code row2 -> row1 = row2.
Proof.
  assert (forall n ins, 0 <= n <= 63 -> 0 <= ins <= 7 ->
            0 <= n * 8 + ins < 512 /\ (n * 8 + ins) / 8 = n
            /\ (n * 8 + ins) mod 8 = ins) as Hpack.
  { intros n ins Hn Hi. split; [lia|].
    rewrite Z.add_comm, Z.div_add, Z.mod_add by lia.
    rewrite Z.div_small, Z.mod_small by lia. lia. }
  intros [->|(n1 & i1 & Hn1 & Hi1 & ->)] [->|(n2 & i2 & Hn2 & Hi2 & ->)] Heq;
    [done| | |].
  - destruct (Hpack n2 i2 Hn2 Hi2) as (Hz & Hd & Hm).
    destruct (row_code_check _ Hz) as [Hne _]. rewrite Hd, Hm in Hne.
    by symmetry in Heq.
  - destruct (Hpack n1 i1 Hn1 Hi1) as (Hz & Hd & Hm).
    destruct (row_code_check _ Hz) as [Hne _]. rewrite Hd, Hm in Hne. done.
  - destruct (Hpack n1 i1 Hn1 Hi1) as (Hz1 & Hd1 & Hm1).
    destruct (Hpack n2 i2 Hn2 Hi2) as (Hz2 & Hd2 & Hm2).
    destruct (row_code_check _ Hz1) as [_ Hinj].
    specialize (Hinj _ Hz2). rewrite Hd1, Hm1, Hd2, Hm2 in Hinj.
    specialize (Hinj Heq).
    assert (n1 = n2) as -> by (rewrite <- Hd1, <- Hd2; by rewrite Hinj).
    assert (i1 = i2) as -> by (rewrite <- Hm1, <- Hm2; by rewrite Hinj).
    done.
Qed.

Lemma converted_rows_stored m key r row :
  PICO8Pattern.rows (converted m key) !! r = Some row -> stored_row row.
Proof.
  intros Hr. pose proof (lookup_lt_Some _ _ _ Hr) as Hlt.
  rewrite converted_rows_length in Hlt.
  rewrite converted_row_lookup in Hr by done. injection Hr as <-.
  destruct (converted_row _ _ _ _) as [row|] eqn:E; [|by left].
  apply converted_row_Some in E as (b & info & _ & _ & _ & ->).
  right. eexists _, _. split; [apply clamp_range|].
  split; [apply land_7_range|done].
Qed.

(** X16: the five characters of a row of a pattern line can be read
    back: two rows of converted patterns with the same code are both empty,
    or both populated with the same note and the same instrument.  In
    particular a populated row is never rendered as ["00000"]. *)
Theorem row_codes_are_unambiguous (args : Args.t) (buf : list byte)
    (out o : list string) (m : FutureComposerModule.t)
    (pats : list PICO8Pattern.t) (p1 p2 : PICO8Pattern.t) (r1 r2 : nat)
    (row1 row2 : option PICO8Pattern.Row) :
  init args buf = (out, Ok m) ->
  convert_patterns m = (o, Ok pats) ->
  p1 ∈ pats -> p2 ∈ pats ->
  PICO8Pattern.rows p1 !! r1 = Some row1 ->
  PICO8Pattern.rows p2 !! r2 = Some row2 ->
  PICO8Pattern.row_code row1 = PICO8Pattern.row_code row2 ->
  row1 = row2
  /\ (row1 <> None -> PICO8Pattern.row_code row1 <> "00000").
Proof.
  intros _ Hc Hp1 Hp2 Hr1 Hr2 Heq.
  apply convert_patterns_Ok_inv in Hc as (_ & _ & ->).
  apply list_elem_of_fmap in Hp1 as (k1 & -> & _).
  apply list_elem_of_fmap in Hp2 as (k2 & -> & _).
  apply converted_rows_stored in Hr1, Hr2.
  split; [by apply stored_row_code_inj|].
  intros Hne Hcode. apply Hne.
  apply stored_row_code_inj; [done|by left|done].
Qed.

Lemma row_codes_are_unambiguous_song :
  exists out m o pats,
    init Args.default Samples.song = (out, Ok m)
    /\ convert_patterns m = (o, Ok pats)
    /\ PICO8Pattern.row_code (Some (PICO8Pattern.mkRow (Some 25) 1 4 0))
       <> "00000".
Proof.
  sample_module Args.default Samples.song m H.
  match eval vm_compute in (convert_patterns m) with
  | (?o', Ok (?p :: ?ps)) =>
      assert (convert_patterns m = (o', Ok (p :: ps))) as Hc
        by (vm_compute; reflexivity);
      exists [], m, o', (p :: ps);
      destruct (row_codes_are_unambiguous _ _ _ _ _ _ p p 0 0
                  (Some (PICO8Pattern.mkRow (Some 25) 1 4 0))
                  (Some (PICO8Pattern.mkRow (Some 25) 1 4 0)) H Hc)
        as [_ Hne]; [left|left|reflexivity|reflexivity|reflexivity|]
  end.
  split; [exact H|]. split; [exact Hc|]. apply Hne. discriminate.
Defined.
